(** * CI helper scripts for the cppcheck / MISRA pipeline

    A shallow embedding of the two scripts under [.github/scripts]:

    - [convert_misra_rules.py] downloads the Coverity deviation list and
      turns it into a cppcheck suppression file;
    - [filter_cppcheck_result.py] keeps the cppcheck findings that lie on
      lines changed in a git diff range and writes them to a CSV file.

    Python integers are unbounded, so line numbers are [Z].  A Python [str]
    is a sequence of Unicode code points and is modelled as [list N]; the
    bytes of a file are obtained through the UTF-8 length of its code
    points.  Exceptions are explicit: a fallible function returns an
    [outcome]. *)

From Stdlib Require Import ZArith NArith List Bool Lia String Ascii.
From Stdlib Require Import Sorted Permutation.
From stdpp Require Import gmap.
Import ListNotations.

(** ** Python values and library functions used by the scripts *)

Module Py.

(** A [str]: the sequence of its code points. *)
Definition str : Type := list N.

Definition chr (a : ascii) : N := N_of_ascii a.

(** String literals of the scripts (all of them ASCII). *)
Definition lit (s : string) : str := map chr (list_ascii_of_string s).

Definition len (s : str) : Z := Z.of_nat (length s).

(** Truth value of a string: empty is false. *)
Definition truthy (s : str) : bool :=
  match s with [] => false | _ :: _ => true end.

(** *** Exceptions *)

(** The exception classes that occur, with their base classes. *)
Inductive exn : Type :=
  | BaseException | Exception
  | KeyboardInterrupt | SystemExit
  | ValueError | UnicodeDecodeError | JSONDecodeError
  | KeyError | TypeError | MemoryError
  | OSError | FileNotFoundError | URLError | HTTPError.

Definition base_class (c : exn) : option exn :=
  match c with
  | BaseException => None
  | Exception | KeyboardInterrupt | SystemExit => Some BaseException
  | ValueError | KeyError | TypeError | MemoryError | OSError => Some Exception
  | UnicodeDecodeError | JSONDecodeError => Some ValueError
  | FileNotFoundError | URLError => Some OSError
  | HTTPError => Some URLError
  end.

Definition exn_eqb (a b : exn) : bool :=
  match a, b with
  | BaseException, BaseException | Exception, Exception
  | KeyboardInterrupt, KeyboardInterrupt | SystemExit, SystemExit
  | ValueError, ValueError | UnicodeDecodeError, UnicodeDecodeError
  | JSONDecodeError, JSONDecodeError | KeyError, KeyError
  | TypeError, TypeError | MemoryError, MemoryError | OSError, OSError
  | FileNotFoundError, FileNotFoundError | URLError, URLError
  | HTTPError, HTTPError => true
  | _, _ => false
  end.

(** [issubclass(c, cls)]; the hierarchy above is at most five deep. *)
Fixpoint issubclass_fuel (fuel : nat) (c cls : exn) : bool :=
  exn_eqb c cls ||
  match fuel, base_class c with
  | S fuel', Some b => issubclass_fuel fuel' b cls
  | _, _ => false
  end.

Definition issubclass (c cls : exn) : bool := issubclass_fuel 5 c cls.

(** The result of a call that may raise. *)
Inductive outcome (A : Type) : Type :=
  | Ok (a : A)
  | Raise (e : exn).
Arguments Ok {A} a.
Arguments Raise {A} e.

(** [try: c  except cls: h] *)
Definition try_except {A} (c : outcome A) (cls : list exn) (h : exn -> outcome A)
    : outcome A :=
  match c with
  | Ok a => Ok a
  | Raise e => if existsb (issubclass e) cls then h e else Raise e
  end.

(** *** Character classes *)

(** Python's [\d], [\s] and [int] follow the Unicode character database.
    Its ASCII part is written out below; for the code points from 128 on
    the database is a parameter [uni] of the functions that consult it. *)
Inductive uclass : Type :=
  | Decimal (v : Z)      (* a decimal digit (category Nd) and its value *)
  | Space                (* white space *)
  | Other.

Definition ucd : Type := N -> uclass.

Definition ascii_digit_value (c : N) : option Z :=
  if ((48 <=? c) && (c <=? 57))%N then Some (Z.of_N c - 48)%Z else None.

(** [Py_UNICODE_ISSPACE] below 128: tab to carriage return, the four
    separators 28..31, and the blank. *)
Definition ascii_unicode_space (c : N) : bool :=
  ((9 <=? c) && (c <=? 13) || (28 <=? c) && (c <=? 32))%N.

(** [Py_ISSPACE]: what [int] skips among ASCII characters. *)
Definition ascii_c_space (c : N) : bool :=
  ((9 <=? c) && (c <=? 13) || (c =? 32))%N.

Definition digit_value (uni : ucd) (c : N) : option Z :=
  if (c <? 128)%N then ascii_digit_value c
  else match uni c with Decimal v => Some v | _ => None end.

(** [\d] *)
Definition re_digit (uni : ucd) (c : N) : bool :=
  match digit_value uni c with Some _ => true | None => false end.

(** [\s] *)
Definition re_space (uni : ucd) (c : N) : bool :=
  if (c <? 128)%N then ascii_unicode_space c
  else match uni c with Space => true | _ => false end.

(** *** [str] methods *)

Fixpoint strip_prefix (prefix s : str) : option str :=
  match prefix, s with
  | [], _ => Some s
  | p :: prefix', c :: s' => if (p =? c)%N then strip_prefix prefix' s' else None
  | _ :: _, [] => None
  end.

(** [s.startswith(prefix)] *)
Definition startswith (s prefix : str) : bool :=
  match strip_prefix prefix s with Some _ => true | None => false end.

(** [s.split(sep)] for a one-character separator. *)
Fixpoint split (sep : N) (s : str) : list str :=
  match s with
  | [] => [[]]
  | c :: s' =>
      if (c =? sep)%N then [] :: split sep s'
      else match split sep s' with
           | [] => [[c]]
           | w :: ws => (c :: w) :: ws
           end
  end.

(** [s.replace(old, new)] for a non-empty [old]: the occurrences are
    replaced from left to right, without overlap.  [skip] counts the
    characters of a replaced occurrence that are still to be dropped. *)
Fixpoint replace_from (old new : str) (skip : nat) (s : str) : str :=
  match s with
  | [] => []
  | c :: s' =>
      match skip with
      | S k => replace_from old new k s'
      | O =>
          if startswith s old
          then new ++ replace_from old new (length old - 1) s'
          else c :: replace_from old new 0 s'
      end
  end.

Definition replace (s old new : str) : str := replace_from old new 0 s.

(** [sep.join(parts)] *)
Fixpoint join (sep : str) (parts : list str) : str :=
  match parts with
  | [] => []
  | [p] => p
  | p :: ps => p ++ sep ++ join sep ps
  end.

(** The number of bytes of the UTF-8 encoding. *)
Definition utf8_len_char (c : N) : Z :=
  if (c <? 128)%N then 1
  else if (c <? 2048)%N then 2
  else if (c <? 65536)%N then 3 else 4.

Definition utf8_len (s : str) : Z :=
  fold_right (fun c n => utf8_len_char c + n)%Z 0%Z s.

(** *** Pieces of the [re] module *)

(** The longest prefix whose characters satisfy [p], and the rest: a
    greedy [p+] or [p*]. *)
Fixpoint span (p : N -> bool) (s : str) : str * str :=
  match s with
  | [] => ([], [])
  | c :: s' =>
      if p c then let '(a, b) := span p s' in (c :: a, b) else ([], s)
  end.

(** [re.search]: the match at the leftmost position where the pattern
    (given by its anchored matcher [at_start]) matches, the position
    after the last character included. *)
Fixpoint search {A} (at_start : str -> option A) (s : str) : option A :=
  match at_start s with
  | Some m => Some m
  | None => match s with [] => None | _ :: s' => search at_start s' end
  end.

(** *** [int(s)] for a string *)

(** Digits and single underscores between them: the value, the number
    of digits (underscores are not counted) and the rest. *)
Fixpoint int_digits (acc : Z) (digits : nat) (after_underscore : bool)
    (s : str) : option (Z * nat * str) :=
  match s with
  | [] => if after_underscore then None else Some (acc, digits, [])
  | c :: s' =>
      if (c =? chr "_")%N then
        if after_underscore then None else int_digits acc digits true s'
      else
        match ascii_digit_value c with
        | Some v => int_digits (10 * acc + v)%Z (S digits) false s'
        | None => if after_underscore then None else Some (acc, digits, s)
        end
  end.

(** [sys.get_int_max_str_digits()]: the interpreter (3.11 and later, and
    the security releases of 3.7 to 3.10) refuses a decimal literal with
    more digits.  The scripts leave the limit at its default. *)
Definition int_max_str_digits : nat := 4300.

(** Before parsing, [int] replaces a decimal digit beyond ASCII by its
    ASCII digit and white space beyond ASCII by a blank; any other
    character beyond ASCII makes the literal invalid. *)
Fixpoint to_ascii (uni : ucd) (s : str) : option str :=
  match s with
  | [] => Some []
  | c :: s' =>
      let rest := to_ascii uni s' in
      if (c <? 127)%N then option_map (cons c) rest
      else if (c <? 128)%N then None
      else match uni c with
           | Space => option_map (cons (chr " ")) rest
           | Decimal v => option_map (cons (Z.to_N (48 + v))) rest
           | Other => None
           end
  end.

Definition int_ascii (s : str) : option Z :=
  let s1 := snd (span ascii_c_space s) in
  let '(negative, s2) :=
    match s1 with
    | c :: s' =>
        if (c =? chr "-")%N then (true, s')
        else if (c =? chr "+")%N then (false, s') else (false, s1)
    | [] => (false, s1)
    end in
  match s2 with
  | c :: _ =>
      match ascii_digit_value c with
      | Some _ =>
          match int_digits 0 0 false s2 with
          | Some (v, digits, s3) =>
              match snd (span ascii_c_space s3) with
              | [] =>
                  if (int_max_str_digits <? digits)%nat then None
                  else Some (if negative then (- v)%Z else v)
              | _ :: _ => None
              end
          | None => None
          end
      | None => None
      end
  | [] => None
  end.

(** [int(s)]; [None] stands for the [ValueError]. *)
Definition int (uni : ucd) (s : str) : option Z :=
  match to_ascii uni s with
  | Some a => int_ascii a
  | None => None
  end.

(** *** Vocabulary for the statements below *)

(** The value of a string of ASCII digits read in base ten. *)
Definition decimal_value (digits : str) : Z :=
  fold_left (fun acc c => 10 * acc + (Z.of_N c - 48))%Z digits 0%Z.

Definition is_ascii_digit (c : N) : Prop := (48 <= c <= 57)%N.

End Py.

(** ** The [ElementTree] elements of the cppcheck report *)

Module Xml.
Import Py.

(** An element: its tag, its attribute dictionary and its children. *)
#[local] Unset Elimination Schemes.
Inductive element : Type :=
  | Element (tag : str) (attrib : gmap str str) (children : list element).
#[local] Set Elimination Schemes.

Definition tag (e : element) : str :=
  match e with Element t _ _ => t end.
Definition attrib (e : element) : gmap str str :=
  match e with Element _ a _ => a end.
Definition children (e : element) : list element :=
  match e with Element _ _ cs => cs end.

(** [e.get(key)], [None] when the attribute is absent. *)
Definition get (e : element) (key : str) : option str := attrib e !! key.

(** [e.get(key, d)] *)
Definition get_default (e : element) (key d : str) : str :=
  default d (attrib e !! key).

Definition has_tag (t : str) (e : element) : bool := bool_decide (tag e = t).

(** [e.findall(t)]: the children of [e] with tag [t]. *)
Definition findall (e : element) (t : str) : list element :=
  List.filter (has_tag t) (children e).

(** Python lists hold references to element objects.  An object of the
    tree is identified by its position: the child indices on the way
    from the root. *)
Definition node : Type := list nat * element.

(** The walk over the children [cs] of the element at [path], [i] being
    the index of the first of them: each child, then what is below it. *)
Section Walk.
Variable below : list nat -> element -> list node.
Variable path : list nat.

Fixpoint walk (i : nat) (cs : list element) : list node :=
  match cs with
  | [] => []
  | c :: cs' => (path ++ [i], c) :: below (path ++ [i]) c ++ walk (S i) cs'
  end.

End Walk.

(** The elements below [e], in document order, [e] itself excluded. *)
Fixpoint descendants (path : list nat) (e : element) : list node :=
  match e with
  | Element _ _ cs => walk descendants path O cs
  end.

(** [root.findall(".//t")] *)
Definition findall_descendants (root : element) (t : str) : list node :=
  List.filter (fun n => has_tag t (snd n)) (descendants [] root).

(** Induction on an element with the property known for its children. *)
Fixpoint element_ind (P : element -> Prop)
    (step : forall t a cs, Forall P cs -> P (Element t a cs))
    (e : element) : P e :=
  match e with
  | Element t a cs =>
      step t a cs
        ((fix all (cs : list element) : Forall P cs :=
            match cs with
            | [] => Forall_nil_2 P
            | c :: cs' => Forall_cons_2 P c cs' (element_ind P step c) (all cs')
            end) cs)
  end.

(** The positions in [l] extend [path] by a child index of at least [i]
    and are pairwise different. *)
Definition fresh_below (path : list nat) (i : nat) (l : list node) : Prop :=
  NoDup (map fst l) /\
  forall q, In q (map fst l) -> exists j rest, q = path ++ j :: rest /\ i <= j.

End Xml.

(** ** The line-range lookup of [filter_cppcheck_result.py] *)

Module Ranges.

Local Open Scope Z_scope.

(** A diff range is the tuple [(start, end)]. *)
Definition range : Type := Z * Z.

(** [start <= line_num <= end] *)
Definition in_range (line_num : Z) (r : range) : bool :=
  (fst r <=? line_num) && (line_num <=? snd r).

(** Python compares tuples lexicographically: [a < b]. *)
Definition tuple_ltb (a b : range) : bool :=
  (fst a <? fst b) || ((fst a =? fst b) && (snd a <? snd b)).

(** [any(start <= line_num <= end for start, end in ranges)] *)
Definition linear_scan (line_num : Z) (ranges : list range) : bool :=
  existsb (in_range line_num) ranges.

(** [sorted(ranges)]: the stable sort by [<].  An element is placed
    behind every element that is smaller and in front of the first one
    that is not. *)
Fixpoint insert_sorted (x : range) (l : list range) : list range :=
  match l with
  | [] => [x]
  | y :: l' => if tuple_ltb y x then y :: insert_sorted x l' else x :: y :: l'
  end.

Fixpoint sorted (l : list range) : list range :=
  match l with
  | [] => []
  | x :: l' => insert_sorted x (sorted l')
  end.

(** [bisect.bisect_left(a, x)]:
<<
    lo, hi = 0, len(a)
    while lo < hi:
        mid = (lo + hi) // 2
        if a[mid] < x: lo = mid + 1
        else: hi = mid
    return lo
>>
    The loop runs on fuel; [length a] iterations are always enough
    (see [bisect_left_spec]).  [a[mid]] is always in range. *)
Fixpoint bisect_left_loop (fuel : nat) (a : list range) (x : range)
    (lo hi : nat) : nat :=
  match fuel with
  | O => lo
  | S fuel' =>
      if (lo <? hi)%nat then
        let mid := ((lo + hi) / 2)%nat in
        match a !! mid with
        | Some y =>
            if tuple_ltb y x
            then bisect_left_loop fuel' a x (mid + 1)%nat hi
            else bisect_left_loop fuel' a x lo mid
        | None => lo
        end
      else lo
  end.

Definition bisect_left (a : list range) (x : range) : nat :=
  bisect_left_loop (length a) a x 0%nat (length a).

(** The body of [for i in [idx - 1, idx]]: the index may be [-1] or
    [len(sorted_ranges)], hence the guard. *)
Definition probe (line_num : Z) (sorted_ranges : list range) (i : Z) : bool :=
  if (0 <=? i) && (i <? Z.of_nat (length sorted_ranges)) then
    match sorted_ranges !! Z.to_nat i with
    | Some r => in_range line_num r
    | None => false
    end
  else false.

Definition binary_search (line_num : Z) (ranges : list range) : bool :=
  let sorted_ranges := sorted ranges in
  let idx := Z.of_nat (bisect_left sorted_ranges (line_num, line_num)) in
  existsb (probe line_num sorted_ranges) [idx - 1; idx].

Definition is_line_in_ranges (line_num : Z) (ranges : list range) : bool :=
  if (length ranges <=? 5)%nat
  then linear_scan line_num ranges
  else binary_search line_num ranges.

(** What the docstring promises: the line is in one of the ranges. *)
Definition in_some_range (line_num : Z) (ranges : list range) : Prop :=
  exists r, In r ranges /\ fst r <= line_num <= snd r.

(** Ranges as [git diff -U0] reports them for one file: each one is
    non-empty, and two of them are the same hunk or do not touch. *)
Definition well_formed (r : range) : Prop := fst r <= snd r.

Definition apart (r q : range) : Prop :=
  r = q \/ snd r < fst q \/ snd q < fst r.

Definition non_overlapping (ranges : list range) : Prop :=
  Forall well_formed ranges /\
  forall r q, In r ranges -> In q ranges -> apart r q.

(** [a <= b] on tuples, as Python decides it: not [b < a]. *)
Definition tuple_le (a b : range) : Prop := tuple_ltb b a = false.

(** What [bisect_left] is documented to return on an ascending list:
    everything in front of position [k] is smaller than [x], nothing from
    [k] on is. *)
Definition partition_point (a : list range) (x : range) (k : nat) : Prop :=
  (k <= length a)%nat /\
  (forall i y, (i < k)%nat -> a !! i = Some y -> tuple_ltb y x = true) /\
  (forall i y, (k <= i)%nat -> a !! i = Some y -> tuple_ltb y x = false).

End Ranges.

(** ** [filter_cppcheck_result.py] *)

Module FilterCppcheckResult.
Import Py Xml Ranges.

Local Open Scope Z_scope.

(** *** [get_changed_ranges] and [parse_diff_ranges] *)

(** The character class [[a-zA-Z0-9._/-]]. *)
Definition ref_char (c : N) : bool :=
  ((chr "a" <=? c) && (c <=? chr "z")
   || (chr "A" <=? c) && (c <=? chr "Z")
   || (chr "0" <=? c) && (c <=? chr "9")
   || (c =? chr ".") || (c =? chr "_") || (c =? chr "/") || (c =? chr "-"))%N.

(** [[a-zA-Z0-9._/-]+$]: [$] matches at the end of the string and in
    front of a newline that ends it. *)
Definition ref_to_end (s : str) : bool :=
  let '(name, rest) := span ref_char s in
  truthy name &&
  match rest with
  | [] => true
  | [c] => (c =? 10)%N
  | _ => false
  end.

(** The rest of the pattern once the first [[a-zA-Z0-9._/-]+] has taken
    at least one character: either the three dots follow here, or the
    class takes one more character. *)
Fixpoint dots_and_ref (s : str) : bool :=
  match s with
  | [] => false
  | c :: s' =>
      match strip_prefix (lit "...") s with
      | Some t => ref_to_end t
      | None => false
      end
      || (ref_char c && dots_and_ref s')
  end.

(** [re.match(r"^[a-zA-Z0-9._/-]+\.\.\.[a-zA-Z0-9._/-]+$", s)] *)
Definition valid_git_diff_range (s : str) : bool :=
  match s with
  | [] => false
  | c :: s' => ref_char c && dots_and_ref s'
  end.

(** The pattern [\+(\d+)(?:,(\d+))?] at the start of [s]: groups 1 and 2. *)
Definition hunk_start (uni : ucd) (s : str) : option (str * option str) :=
  match s with
  | c :: s1 =>
      if (c =? chr "+")%N then
        let '(g1, s2) := span (re_digit uni) s1 in
        if truthy g1 then
          match s2 with
          | c2 :: s3 =>
              let g2 := fst (span (re_digit uni) s3) in
              if (c2 =? chr ",")%N && truthy g2
              then Some (g1, Some g2) else Some (g1, None)
          | [] => Some (g1, None)
          end
        else None
      else None
  | [] => None
  end.

(** The loop of [parse_diff_ranges] over the lines; [ranges] is the list
    built so far. *)
Fixpoint parse_lines (uni : ucd) (lines : list str) (ranges : list range)
    : outcome (list range) :=
  match lines with
  | [] => Ok ranges
  | line :: lines' =>
      if startswith line (lit "@@") then
        match search (hunk_start uni) line with
        | Some (g1, g2) =>
            match int uni g1,
                  match g2 with Some g => int uni g | None => Some 1 end with
            | Some start, Some count =>
                if 0 <? count
                then parse_lines uni lines' (ranges ++ [(start, start + count - 1)])
                else parse_lines uni lines' ranges
            | _, _ => Raise ValueError
            end
        | None => parse_lines uni lines' ranges
        end
      else parse_lines uni lines' ranges
  end.

Definition parse_diff_ranges (uni : ucd) (diff_output : str)
    : outcome (list range) :=
  parse_lines uni (split 10%N diff_output) [].

(** The operating system as far as [subprocess.run] is concerned: given
    the command line, the captured standard output, or the exception the
    call raises.  A non-zero exit status of git raises nothing. *)
Definition subprocess : Type := list str -> outcome str.

Definition git_diff_cmd (source_dir git_diff_range file_path : str) : list str :=
  [lit "git"; lit "-C"; source_dir; lit "diff"; lit "-U0"; git_diff_range;
   lit "--"; file_path].

Definition get_changed_ranges (uni : ucd) (run : subprocess)
    (file_path git_diff_range source_dir : str) : outcome (list range) :=
  if negb (valid_git_diff_range git_diff_range) then Raise ValueError
  else
    let cmd := git_diff_cmd source_dir git_diff_range file_path in
    try_except
      match run cmd with
      | Ok stdout => parse_diff_ranges uni stdout
      | Raise e => Raise e
      end
      [Exception]
      (fun _ => Ok []).

(** *** [filter_errors_by_changed_lines] *)

(** The loops thread the dictionary [file_ranges_cache] and may raise. *)
Definition M (A : Type) : Type :=
  gmap str (list range) -> outcome (A * gmap str (list range)).

Definition ret {A} (a : A) : M A := fun cache => Ok (a, cache).

Definition bind {A B} (c : M A) (k : A -> M B) : M B :=
  fun cache =>
    match c cache with
    | Ok (a, cache') => k a cache'
    | Raise e => Raise e
    end.

Notation "x <- c ;; k" := (bind c (fun x => k))
  (at level 100, c at next level, right associativity).

Definition lift {A} (o : outcome A) : M A :=
  fun cache =>
    match o with
    | Ok a => Ok (a, cache)
    | Raise e => Raise e
    end.

Section Filter.

Variable uni : ucd.
Variable run : subprocess.
Variables git_diff_range source_dir : str.

(** [if file_path not in file_ranges_cache: ...] followed by
    [file_ranges_cache[file_path]]. *)
Definition cached_ranges (file_path : str) : M (list range) :=
  fun cache =>
    match cache !! file_path with
    | Some ranges => Ok (ranges, cache)
    | None =>
        match get_changed_ranges uni run file_path git_diff_range source_dir with
        | Ok ranges => Ok (ranges, <[file_path := ranges]> cache)
        | Raise e => Raise e
        end
    end.

(** [int(location.get("line", 0))] *)
Definition line_of (location : element) : outcome Z :=
  match get location (lit "line") with
  | None => Ok 0
  | Some s =>
      match int uni s with
      | Some n => Ok n
      | None => Raise ValueError
      end
  end.

(** [for location in error.findall("location")]: the error is appended
    at the first location on a changed line, which ends the loop. *)
Fixpoint scan_locations (error : node) (locations : list element)
    (filtered_errors : list node) : M (list node) :=
  match locations with
  | [] => ret filtered_errors
  | location :: locations' =>
      line_num <- lift (line_of location) ;;
      match get location (lit "file") with
      | Some file_path =>
          if truthy file_path && (0 <? line_num) then
            ranges <- cached_ranges file_path ;;
            if is_line_in_ranges line_num ranges
            then ret (filtered_errors ++ [error])
            else scan_locations error locations' filtered_errors
          else scan_locations error locations' filtered_errors
      | None => scan_locations error locations' filtered_errors
      end
  end.

(** [for error in root.findall(".//error")] *)
Fixpoint scan_errors (errors : list node) (filtered_errors : list node)
    : M (list node) :=
  match errors with
  | [] => ret filtered_errors
  | error :: errors' =>
      if negb (startswith (get_default (snd error) (lit "id") [])
                          (lit "misra-c2012"))
      then scan_errors errors' filtered_errors
      else
        filtered_errors' <-
          scan_locations error (findall (snd error) (lit "location"))
                         filtered_errors ;;
        scan_errors errors' filtered_errors'
  end.

Definition filter_errors_by_changed_lines (root : element)
    : outcome (list node) :=
  match scan_errors (findall_descendants root (lit "error")) [] ∅ with
  | Ok (filtered_errors, _) => Ok filtered_errors
  | Raise e => Raise e
  end.

End Filter.

(** *** [write_csv_output] *)

Definition quotechar : N := 34%N.

(** The default dialect quotes a field that holds the delimiter, the
    quote character, or a character of the line terminator, and doubles
    the quote characters inside. *)
Definition needs_quotes (field : str) : bool :=
  existsb (fun c => (c =? chr ",") || (c =? quotechar)
                    || (c =? 13) || (c =? 10))%N field.

Definition csv_field (field : str) : str :=
  if needs_quotes field then
    quotechar
      :: flat_map (fun c => if (c =? quotechar)%N then [c; c] else [c]) field
      ++ [quotechar]
  else field.

(** The text [writer.writerow(fields)] appends, for two fields or more. *)
Definition csv_row (fields : list str) : str :=
  join (lit ",") (map csv_field fields) ++ [13%N; 10%N].

Definition header : list str :=
  [lit "misra-c2012-rule"; lit "severity"; lit "file"; lit "line"; lit "column"].

(** The open file: the text written so far.  It is opened for writing
    with UTF-8 encoding, so [tell()] is the number of bytes written. *)
Definition tell (csvfile : str) : Z := utf8_len csvfile.

Definition writerow (csvfile : str) (fields : list str) : str :=
  csvfile ++ csv_row fields.

(** [len(f"{error_id},{severity},{file_path},{line_num},{column}\n")] *)
Definition row_size (fields : list str) : Z :=
  len (join (lit ",") fields ++ [10%N]).

(** [if max_size:] holds for an integer other than zero. *)
Definition capped (max_size : option Z) : option Z :=
  match max_size with
  | Some m => if m =? 0 then None else Some m
  | None => None
  end.

(** The loops end either normally or by the [return] at the size limit. *)
Inductive flow : Type :=
  | Continue (csvfile : str)
  | Return (csvfile : str).

Definition location_fields (error_id severity : str) (location : element)
    : list str :=
  [error_id; severity;
   get_default location (lit "file") [];
   get_default location (lit "line") [];
   get_default location (lit "column") []].

Fixpoint write_locations (max_size : option Z) (error_id severity : str)
    (locations : list element) (csvfile : str) : flow :=
  match locations with
  | [] => Continue csvfile
  | location :: locations' =>
      let fields := location_fields error_id severity location in
      let write :=
        write_locations max_size error_id severity locations'
                        (writerow csvfile fields) in
      match capped max_size with
      | Some m => if tell csvfile + row_size fields >? m then Return csvfile else write
      | None => write
      end
  end.

Fixpoint write_errors (max_size : option Z) (filtered_errors : list node)
    (csvfile : str) : flow :=
  match filtered_errors with
  | [] => Continue csvfile
  | error :: errors' =>
      let error_id :=
        replace (get_default (snd error) (lit "id") []) (lit "misra-c2012-") [] in
      let severity := get_default (snd error) (lit "severity") [] in
      match write_locations max_size error_id severity
                            (findall (snd error) (lit "location")) csvfile with
      | Continue csvfile' => write_errors max_size errors' csvfile'
      | Return csvfile' => Return csvfile'
      end
  end.

(** The text of the CSV file when [write_csv_output] has closed it. *)
Definition csv_written (filtered_errors : list node) (max_size : option Z)
    : str :=
  match write_errors max_size filtered_errors (writerow [] header) with
  | Continue csvfile | Return csvfile => csvfile
  end.

(** The file system maps a path to the text of the file. *)
Definition write_csv_output (fs : gmap str str) (filtered_errors : list node)
    (output_file : str) (max_size : option Z) : gmap str str :=
  <[output_file := csv_written filtered_errors max_size]> fs.

(** *** Vocabulary for the statements below *)

(** The test at the head of the loop over the errors. *)
Definition is_misra (error : node) : bool :=
  startswith (get_default (snd error) (lit "id") []) (lit "misra-c2012").

(** The cache holds nothing for the file, or the empty list. *)
Definition no_ranges_for (file_path : str) (cache : gmap str (list range))
    : Prop :=
  cache !! file_path = None \/ cache !! file_path = Some [].

(** The error has a location in another file. *)
Definition located_elsewhere (file_path : str) (error : node) : Prop :=
  exists location,
    In location (findall (snd error) (lit "location")) /\
    get location (lit "file") <> Some file_path.

(** The rows [write_csv_output] has to write: one for each location of
    each error, in order. *)
Definition error_rows (error : node) : list (list str) :=
  map (location_fields
         (replace (get_default (snd error) (lit "id") []) (lit "misra-c2012-") [])
         (get_default (snd error) (lit "severity") []))
      (findall (snd error) (lit "location")).

Definition all_rows (filtered_errors : list node) : list (list str) :=
  flat_map error_rows filtered_errors.

(** The text of some rows. *)
Definition rows_text (rows : list (list str)) : str := flat_map csv_row rows.

(** Each of [rows] passed the size test at its turn, the file holding
    [csvfile] before the first of them. *)
Fixpoint passed (m : Z) (csvfile : str) (rows : list (list str)) : Prop :=
  match rows with
  | [] => True
  | r :: rows' =>
      tell csvfile + row_size r <= m /\ passed m (csvfile ++ csv_row r) rows'
  end.

(** The first of [skipped] failed the size test. *)
Definition rejected (m : Z) (csvfile : str) (skipped : list (list str)) : Prop :=
  match skipped with
  | [] => False
  | r :: _ => tell csvfile + row_size r > m
  end.

(** The state [f] of a loop over [rows] that started with [csvfile]: a
    prefix [written] of the rows went in. *)
Definition wrote (m : Z) (csvfile : str) (rows : list (list str)) (f : flow)
    : Prop :=
  exists written skipped,
    rows = written ++ skipped /\ passed m csvfile written /\
    match f with
    | Continue csvfile' =>
        csvfile' = csvfile ++ rows_text written /\ skipped = []
    | Return csvfile' =>
        csvfile' = csvfile ++ rows_text written /\ rejected m csvfile' skipped
    end.

End FilterCppcheckResult.

(** ** [convert_misra_rules.py] *)

Module ConvertMisraRules.
Import Py.

(** What [json.loads] returns. *)
#[local] Unset Elimination Schemes.
Inductive json : Type :=
  | JNull
  | JBool (b : bool)
  | JNumber (n : Z)
  | JString (s : str)
  | JArray (items : list json)
  | JObject (members : gmap str json).
#[local] Set Elimination Schemes.

(** [v[key]] for a string key: only a dictionary has one. *)
Definition getitem (v : json) (key : str) : outcome json :=
  match v with
  | JObject members =>
      match members !! key with
      | Some x => Ok x
      | None => Raise KeyError
      end
  | _ => Raise TypeError
  end.

(** The pattern [(Rule|Directive)\s+(\d+\.\d+)] at the start of [s]:
    group 2. *)
Definition number_after (uni : ucd) (s : str) : option str :=
  let '(blanks, s1) := span (re_space uni) s in
  let '(major, s2) := span (re_digit uni) s1 in
  match s2 with
  | c :: s3 =>
      let minor := fst (span (re_digit uni) s3) in
      if truthy blanks && truthy major && (c =? chr ".")%N && truthy minor
      then Some (major ++ [c] ++ minor)
      else None
  | [] => None
  end.

Definition rule_start (uni : ucd) (s : str) : option str :=
  let alternative (word : str) :=
    match strip_prefix word s with
    | Some rest => number_after uni rest
    | None => None
    end in
  match alternative (lit "Rule") with
  | Some g2 => Some g2
  | None => alternative (lit "Directive")
  end.

(** What [for deviation in deviations] iterates over.  A dictionary
    yields its keys and a string its characters. *)
Definition iterate (deviations : json) : outcome (list json) :=
  match deviations with
  | JArray items => Ok items
  | JObject members => Ok (map (fun kv => JString (fst kv)) (map_to_list members))
  | JString s => Ok (map (fun c => JString [c]) s)
  | _ => Raise TypeError
  end.

(** The loop of [extract_rules]; [rules] is the list built so far. *)
Fixpoint extract_loop (uni : ucd) (deviations : list json) (rules : list str)
    : outcome (list str) :=
  match deviations with
  | [] => Ok rules
  | deviation :: deviations' =>
      match getitem deviation (lit "deviation") with
      | Ok (JString text) =>
          match search (rule_start uni) text with
          | Some rule_num =>
              extract_loop uni deviations' (rules ++ [lit "misra-c2012-" ++ rule_num])
          | None => extract_loop uni deviations' rules
          end
      | Ok _ => Raise TypeError
      | Raise e => Raise e
      end
  end.

Definition extract_rules (uni : ucd) (deviations : json) : outcome (list str) :=
  match iterate deviations with
  | Ok items => extract_loop uni items []
  | Raise e => Raise e
  end.

(** The network as far as the script is concerned: what
<<
    with urllib.request.urlopen(URL) as response:
        data = json.loads(response.read().decode())
>>
    evaluates to, the decoded document or the exception raised on the
    way ([URLError] and [HTTPError] from the request, an [OSError] such
    as a connection reset or a timeout while the body is read,
    [UnicodeDecodeError] from [decode], [JSONDecodeError] from
    [json.loads]). *)
Definition download : Type := outcome json.

Definition fetch_misra_rules (uni : ucd) (response : download)
    : outcome (list str) :=
  try_except
    match response with
    | Ok data =>
        match getitem data (lit "deviations") with
        | Ok deviations => extract_rules uni deviations
        | Raise e => Raise e
        end
    | Raise e => Raise e
    end
    [URLError; JSONDecodeError]
    (fun _ => Ok []).

Definition static_rules : list str :=
  [lit "missingIncludeSystem"; lit "checkersReport";
   lit "unmatchedSuppression"; lit "misra-config"].

(** The text written by the loop [f.write(f"{rule}\n")]. *)
Definition config_text (rules : list str) : str :=
  flat_map (fun rule => rule ++ [10%N]) (static_rules ++ rules).

(** The file system maps a path to the text of the file. *)
Definition write_config_file (fs : gmap str str) (filename : str)
    (rules : list str) : gmap str str :=
  <[filename := config_text rules]> fs.

(** [main], up to its messages: the file system it leaves behind. *)
Definition main (uni : ucd) (response : download) (fs : gmap str str)
    (cppcheck_suppress_file : str) : outcome (gmap str str) :=
  match fetch_misra_rules uni response with
  | Ok rules => Ok (write_config_file fs cppcheck_suppress_file rules)
  | Raise e => Raise e
  end.

End ConvertMisraRules.

(** ** Sample data *)

Module Samples.
Import Py Xml Ranges FilterCppcheckResult ConvertMisraRules.

(** A character database with no digit and no blank beyond ASCII. *)
Definition ascii_only : ucd := fun _ => Other.

Definition location (file line column : string) : element :=
  Element (lit "location")
          (list_to_map [(lit "file", lit file); (lit "line", lit line);
                        (lit "column", lit column)])
          [].

Definition error (id severity : string) (locations : list element) : element :=
  Element (lit "error")
          (list_to_map [(lit "id", lit id); (lit "severity", lit severity)])
          locations.

(** A finding with two locations on changed lines, a finding on an
    unchanged line, and a finding of another checker on a changed line. *)
Definition changed_twice : element :=
  error "misra-c2012-8.4" "style" [location "a.c" "16" "2"; location "a.c" "17" "1"].

Definition unchanged : element :=
  error "misra-c2012-2.1" "style" [location "a.c" "20" "5"].

Definition other_checker : element :=
  error "nullPointer" "error" [location "a.c" "16" "9"].

Definition report : element :=
  Element (lit "results") ∅
          [Element (lit "cppcheck") ∅ [];
           Element (lit "errors") ∅ [changed_twice; unchanged; other_checker]].

(** git reports the one hunk [@@ -10,0 +15,3 @@] for every file. *)
Definition git : subprocess := fun _ => Ok (lit "@@ -10,0 +15,3 @@").

(** git is not installed. *)
Definition no_git : subprocess := fun _ => Raise FileNotFoundError.

Definition deviation (text : string) : json :=
  JObject {[ lit "deviation" := JString (lit text) ]}.

End Samples.

(** ** The callers in [filter_cppcheck_result.py] *)

Module FilterCppcheckScript.
Import Py Xml Ranges FilterCppcheckResult.

(** A value that may be [None], as an f-string prints it. *)
Definition format (x : option str) : str :=
  match x with
  | Some s => s
  | None => lit "None"
  end.

(** [f"{file_path}:{line_num}: {severity}: {msg} [{error_id}]"] *)
Definition human_line (severity msg error_id : str) (location : element) : str :=
  format (get location (lit "file")) ++ lit ":"
    ++ format (get location (lit "line")) ++ lit ": "
    ++ severity ++ lit ": " ++ msg ++ lit " [" ++ error_id ++ lit "]".

(** The lines [print_human_readable] prints. *)
Definition print_human_readable (filtered_errors : list node) : list str :=
  flat_map
    (fun error =>
       let severity := get_default (snd error) (lit "severity") (lit "unknown") in
       let msg := get_default (snd error) (lit "msg") [] in
       let error_id := get_default (snd error) (lit "id") [] in
       map (human_line severity msg error_id)
           (findall (snd error) (lit "location")))
    filtered_errors.

(** What a run of [filter_cppcheck_results] leaves behind: the value it
    returns, the text of each file, the directories that [os.makedirs]
    created, and the lines of [print_human_readable] (the status
    messages are left out). *)
Record result : Type := Result {
  returned : Z;
  files : gmap str str;
  created : list str;
  printed : list str
}.

(** The operating system as far as [write_csv_output] is concerned.
    [makedirs] is what
    [os.makedirs(os.path.dirname(output_file) or ".", exist_ok=True)]
    does: the directories it creates, which stay whatever happens next,
    and whether it returns or raises.  [opened] is how
    [open(output_file, "w", ...)] ends; when it raises, no file has been
    created or emptied. *)
Definition try_write_csv_output (makedirs : list str * outcome unit)
    (opened : outcome unit) (fs : gmap str str) (filtered_errors : list node)
    (output_file : str) (max_size : option Z)
    : list str * outcome (gmap str str) :=
  match makedirs with
  | (dirs, Raise e) => (dirs, Raise e)
  | (dirs, Ok _) =>
      match opened with
      | Raise e => (dirs, Raise e)
      | Ok _ =>
          (dirs, Ok (write_csv_output fs filtered_errors output_file max_size))
      end
  end.

(** The body of the [try] statement of [filter_cppcheck_results]: the
    directories created on the way, and the value returned or the
    exception raised.  Besides git and the output file, the environment
    decides [parsed], what [ET.parse(xml_file).getroot()] evaluates
    to. *)
Definition attempt (uni : ucd) (run : subprocess)
    (parsed : outcome element) (makedirs : list str * outcome unit)
    (opened : outcome unit) (fs : gmap str str)
    (git_diff_range output_file : str) (max_size : option Z)
    (source_dir : str) : list str * outcome result :=
  match parsed with
  | Raise e => ([], Raise e)
  | Ok root =>
      match filter_errors_by_changed_lines uni run git_diff_range
                                           source_dir root with
      | Raise e => ([], Raise e)
      | Ok filtered_errors =>
          match try_write_csv_output makedirs opened fs filtered_errors
                                     output_file max_size with
          | (dirs, Raise e) => (dirs, Raise e)
          | (dirs, Ok fs') =>
              (dirs,
               Ok {| returned := Z.of_nat (length filtered_errors);
                     files := fs';
                     created := dirs;
                     printed := print_human_readable filtered_errors |})
          end
      end
  end.

(** [filter_cppcheck_results]: the handler returns 0; what the body did
    to the file system before it raised is not undone. *)
Definition filter_cppcheck_results (uni : ucd) (run : subprocess)
    (parsed : outcome element) (makedirs : list str * outcome unit)
    (opened : outcome unit) (fs : gmap str str)
    (git_diff_range output_file : str) (max_size : option Z)
    (source_dir : str) : outcome result :=
  let '(dirs, body) :=
    attempt uni run parsed makedirs opened fs git_diff_range output_file
            max_size source_dir in
  try_except body [Exception]
    (fun _ => Ok {| returned := 0; files := fs; created := dirs;
                    printed := [] |}).

(** The script: the exit status after [sys.exit(0)]. *)
Definition script (uni : ucd) (run : subprocess)
    (parsed : outcome element) (makedirs : list str * outcome unit)
    (opened : outcome unit) (fs : gmap str str)
    (git_diff_range output_file : str) (max_size : option Z)
    (source_dir : str) : outcome (Z * result) :=
  match filter_cppcheck_results uni run parsed makedirs opened fs
                                git_diff_range output_file max_size
                                source_dir with
  | Ok r => Ok (0%Z, r)
  | Raise e => Raise e
  end.

(** *** Vocabulary for the statements below *)

(** Whether a location counts as changed, as the loop of
    [filter_errors_by_changed_lines] decides it: the location names a
    file, its line is a positive integer, and [is_line_in_ranges]
    answers [true] for the line and the ranges of that file's diff.
    (With more than five ranges that overlap, [is_line_in_ranges] may
    answer [false] for a line inside a range.) *)
Definition on_changed_line (uni : ucd) (run : subprocess)
    (git_diff_range source_dir : str) (location : element) : bool :=
  match line_of uni location, get location (lit "file") with
  | Ok line_num, Some file_path =>
      truthy file_path && (0 <? line_num)%Z &&
      match get_changed_ranges uni run file_path git_diff_range source_dir with
      | Ok ranges => is_line_in_ranges line_num ranges
      | Raise _ => false
      end
  | _, _ => false
  end.

(** The errors to keep: those of MISRA with a location that counts as
    changed. *)
Definition kept (uni : ucd) (run : subprocess)
    (git_diff_range source_dir : str) (error : node) : bool :=
  is_misra error &&
  existsb (on_changed_line uni run git_diff_range source_dir)
          (findall (snd error) (lit "location")).

(** The location names a file and a positive line that lies in one of
    the ranges [get_changed_ranges] returns for the file. *)
Definition in_changed_range (uni : ucd) (run : subprocess)
    (git_diff_range source_dir : str) (location : element) : Prop :=
  exists line_num file_path ranges,
    line_of uni location = Ok line_num /\
    get location (lit "file") = Some file_path /\
    file_path <> [] /\ (0 < line_num)%Z /\
    get_changed_ranges uni run file_path git_diff_range source_dir
      = Ok ranges /\
    in_some_range line_num ranges.

(** The cache holds for a file what [get_changed_ranges] returns for it. *)
Definition coherent (uni : ucd) (run : subprocess)
    (git_diff_range source_dir : str) (cache : gmap str (list range)) : Prop :=
  forall file_path ranges,
    cache !! file_path = Some ranges ->
    get_changed_ranges uni run file_path git_diff_range source_dir = Ok ranges.

(** A [ValueError], or an exception that no [except Exception] catches. *)
Definition value_error_or_interrupt (e : exn) : Prop :=
  e = ValueError \/ issubclass e Exception = false.

(** The line attribute of each location is absent or a literal that
    [int] accepts: an integer of no more digits than the limit. *)
Definition lines_readable (uni : ucd) (error : node) : Prop :=
  Forall (fun location => exists n, line_of uni location = Ok n)
         (findall (snd error) (lit "location")).

(** [s = a...b] for two non-empty names in the character class, with
    possibly a newline at the end. *)
Definition three_dot_range (s : str) : Prop :=
  exists a b,
    a <> [] /\ b <> [] /\
    Forall (fun c => ref_char c = true) a /\
    Forall (fun c => ref_char c = true) b /\
    (s = a ++ lit "..." ++ b \/ s = a ++ lit "..." ++ b ++ [10%N]).

End FilterCppcheckScript.

(** ** Vocabulary for [convert_misra_rules.py] *)

Module ConvertVocabulary.
Import Py ConvertMisraRules.

(** A rule as cppcheck names it: [misra-c2012-], digits, a dot, digits. *)
Definition rule_identifier (uni : ucd) (rule : str) : Prop :=
  exists major minor,
    major <> [] /\ minor <> [] /\
    Forall (fun c => re_digit uni c = true) major /\
    Forall (fun c => re_digit uni c = true) minor /\
    rule = lit "misra-c2012-" ++ major ++ [chr "."] ++ minor.

(** A record without the key [deviation]. *)
Definition lacks_deviation (record : json) : Prop :=
  exists members, record = JObject members /\ members !! lit "deviation" = None.

End ConvertVocabulary.

(** * Properties *)

Import Py Xml Ranges FilterCppcheckResult ConvertMisraRules.

(** ** Exception classes *)

(** Every class derives from [BaseException]: the fuel of [issubclass]
    reaches the root of the hierarchy. *)
Lemma issubclass_BaseException (e : exn) : issubclass e BaseException = true.
Proof. destruct e; reflexivity. Qed.

(** The classes that are no [Exception]. *)
Lemma not_Exception (e : exn) :
  issubclass e Exception = false <->
  e = BaseException \/ e = KeyboardInterrupt \/ e = SystemExit.
Proof.
  split.
  - destruct e; intros H; try discriminate H; auto.
  - intros [->|[->| ->]]; reflexivity.
Qed.

(** ** Tuples and ranges *)

Section RangeFacts.

Local Open Scope Z_scope.

Lemma tuple_ltb_true (a b : range) :
  tuple_ltb a b = true <-> fst a < fst b \/ (fst a = fst b /\ snd a < snd b).
Proof.
  unfold tuple_ltb.
  rewrite orb_true_iff, andb_true_iff, !Z.ltb_lt, Z.eqb_eq. tauto.
Qed.

Lemma tuple_ltb_false (a b : range) :
  tuple_ltb a b = false <-> fst b < fst a \/ (fst a = fst b /\ snd b <= snd a).
Proof.
  rewrite <- not_true_iff_false, tuple_ltb_true. lia.
Qed.

Lemma in_range_true (line_num : Z) (r : range) :
  in_range line_num r = true <-> fst r <= line_num <= snd r.
Proof.
  unfold in_range. rewrite andb_true_iff, !Z.leb_le. tauto.
Qed.

End RangeFacts.

(** Comparisons of tuples and membership in a range, turned into linear
    arithmetic. *)
Ltac order :=
  repeat match goal with
  | H : tuple_le _ _ |- _ => unfold tuple_le in H
  | H : tuple_ltb _ _ = true |- _ => apply tuple_ltb_true in H
  | H : tuple_ltb _ _ = false |- _ => apply tuple_ltb_false in H
  | H : in_range _ _ = true |- _ => apply in_range_true in H
  | |- tuple_le _ _ => unfold tuple_le
  | |- tuple_ltb _ _ = true => apply tuple_ltb_true
  | |- tuple_ltb _ _ = false => apply tuple_ltb_false
  | |- in_range _ _ = true => apply in_range_true
  end; simpl in *; try lia.

Section SortFacts.

Local Open Scope Z_scope.

Lemma tuple_le_refl a : tuple_le a a.
Proof. order. Qed.

Lemma tuple_le_trans a b c : tuple_le a b -> tuple_le b c -> tuple_le a c.
Proof. intros. order. Qed.

(** *** [sorted] returns its argument in ascending order *)

Lemma insert_sorted_perm x l : Permutation (insert_sorted x l) (x :: l).
Proof.
  induction l as [|y l IH]; simpl; [reflexivity|].
  destruct (tuple_ltb y x); [|reflexivity].
  rewrite IH. apply perm_swap.
Qed.

Lemma sorted_perm l : Permutation (sorted l) l.
Proof.
  induction l as [|x l IH]; simpl; [reflexivity|].
  rewrite insert_sorted_perm. now constructor.
Qed.

Lemma insert_sorted_ascending x l :
  StronglySorted tuple_le l -> StronglySorted tuple_le (insert_sorted x l).
Proof.
  induction 1 as [|y l Hl IH Hy]; simpl.
  - repeat constructor.
  - destruct (tuple_ltb y x) eqn:Hyx.
    + constructor; [exact IH|].
      eapply Permutation_Forall; [symmetry; apply insert_sorted_perm|].
      constructor; [order | exact Hy].
    + constructor; [now constructor|].
      constructor; [exact Hyx|].
      eapply List.Forall_impl; [|exact Hy].
      intros z Hz. now apply tuple_le_trans with y.
Qed.

Lemma sorted_ascending l : StronglySorted tuple_le (sorted l).
Proof.
  induction l; simpl; [constructor | now apply insert_sorted_ascending].
Qed.

(** Sortedness read through indices. *)
Lemma ascending_lookup (a : list range) (i j : nat) (x y : range) :
  StronglySorted tuple_le a -> (i <= j)%nat ->
  a !! i = Some x -> a !! j = Some y -> tuple_le x y.
Proof.
  intros Ha. revert i j. induction Ha as [|z a Ha IH Hz]; intros i j Hij Hi Hj.
  - discriminate.
  - destruct i as [|i], j as [|j]; simpl in *; try lia.
    + inversion Hi; inversion Hj; subst. apply tuple_le_refl.
    + inversion Hi; subst. rewrite Forall_forall in Hz. apply Hz.
      eapply list_elem_of_lookup_2; eauto.
    + apply (IH i j); auto; lia.
Qed.

(** *** [bisect_left] on an ascending list *)

Lemma bisect_left_loop_spec (a : list range) (x : range) :
  StronglySorted tuple_le a ->
  forall fuel lo hi,
    (lo <= hi <= length a)%nat -> (hi - lo <= fuel)%nat ->
    (forall i y, (i < lo)%nat -> a !! i = Some y -> tuple_ltb y x = true) ->
    (forall i y, (hi <= i)%nat -> a !! i = Some y -> tuple_ltb y x = false) ->
    partition_point a x (bisect_left_loop fuel a x lo hi).
Proof.
  intros Ha. induction fuel as [|fuel IH]; intros lo hi Hb Hf Hlo Hhi;
    cbn [bisect_left_loop].
  - assert (lo = hi) by lia. subst hi.
    repeat split; [lia | exact Hlo | exact Hhi].
  - destruct (Nat.ltb_spec lo hi) as [Hlt|Hge].
    2:{ assert (lo = hi) by lia. subst hi.
        repeat split; [lia | exact Hlo | exact Hhi]. }
    set (mid := ((lo + hi) / 2)%nat).
    assert (Hmid : (lo <= mid < hi)%nat).
    { subst mid. split.
      - apply Nat.div_le_lower_bound; lia.
      - apply Nat.Div0.div_lt_upper_bound; lia. }
    fold mid.
    destruct (a !! mid) as [y|] eqn:Hy.
    2:{ apply lookup_ge_None in Hy. lia. }
    destruct (tuple_ltb y x) eqn:Hyx.
    + apply IH; [lia | lia | | exact Hhi].
      intros i z Hi Hz.
      assert (tuple_le z y) by (apply (ascending_lookup a i mid); auto; lia).
      order.
    + apply IH; [lia | lia | exact Hlo |].
      intros i z Hi Hz.
      assert (tuple_le y z) by (apply (ascending_lookup a mid i); auto; lia).
      order.
Qed.

Lemma bisect_left_partition (a : list range) (x : range) :
  StronglySorted tuple_le a -> partition_point a x (bisect_left a x).
Proof.
  intros Ha. unfold bisect_left.
  apply bisect_left_loop_spec; auto; try lia.
  intros i y Hi Hy. apply lookup_lt_Some in Hy. lia.
Qed.

(** On a sorted list [bisect_left] returns the partition point: the
    items before it are below [x], the items from it on are not. *)
Lemma bisect_left_spec (a : list range) (x : range) :
  StronglySorted tuple_le a -> partition_point a x (bisect_left a x).
Proof. apply bisect_left_partition. Qed.


Lemma bisect_left_spec_witness :
  let a := sorted [(7, 8); (1, 2); (10, 11); (4, 5)] in
  partition_point a (5, 5) (bisect_left a (5, 5)).
Proof.
  exact (bisect_left_spec _ (5, 5) (sorted_ascending [(7, 8); (1, 2); (10, 11); (4, 5)])).
Defined.

End SortFacts.

Section LookupFacts.

Local Open Scope Z_scope.

(** *** The two paths of [is_line_in_ranges] *)

Lemma linear_scan_spec (line_num : Z) (ranges : list range) :
  linear_scan line_num ranges = true <-> in_some_range line_num ranges.
Proof.
  unfold linear_scan, in_some_range. rewrite List.existsb_exists.
  split; intros [r [Hr Hin]]; exists r; split; auto; order.
Qed.

Lemma probe_true (line_num : Z) (a : list range) (i : Z) :
  probe line_num a i = true <->
  exists r, 0 <= i /\ a !! Z.to_nat i = Some r /\ in_range line_num r = true.
Proof.
  unfold probe. split.
  - destruct (0 <=? i) eqn:H0; simpl; [|discriminate].
    destruct (i <? Z.of_nat (length a)); [|discriminate].
    destruct (a !! Z.to_nat i) as [r|]; [|discriminate].
    intros Hr. exists r. repeat split; auto. lia.
  - intros [r [H0 [Hr Hin]]]. pose proof (lookup_lt_Some _ _ _ Hr) as Hlt.
    destruct (Z.leb_spec 0 i); [|lia].
    destruct (Z.ltb_spec i (Z.of_nat (length a))); [|lia].
    simpl. now rewrite Hr.
Qed.

Lemma binary_search_true (line_num : Z) (ranges : list range) :
  binary_search line_num ranges = true <->
  exists r i,
    sorted ranges !! i = Some r /\ in_range line_num r = true /\
    let idx := bisect_left (sorted ranges) (line_num, line_num) in
    (S i = idx \/ i = idx).
Proof.
  unfold binary_search. cbn [existsb]. rewrite orb_false_r, orb_true_iff.
  rewrite !probe_true. split.
  - intros [[r [H0 [Hr Hin]]]|[r [H0 [Hr Hin]]]];
      eexists r, _; (split; [exact Hr|]); (split; [exact Hin|]); cbn; lia.
  - intros [r [i [Hr [Hin [Hi|Hi]]]]]; [left|right]; exists r;
      rewrite <- Hi; (split; [lia|]); (split; [|exact Hin]).
    + replace (Z.to_nat (Z.of_nat (S i) - 1)) with i by lia. exact Hr.
    + now rewrite Nat2Z.id.
Qed.

(** The binary search never reports a line that is in no range. *)
Lemma binary_search_sound (line_num : Z) (ranges : list range) :
  binary_search line_num ranges = true -> in_some_range line_num ranges.
Proof.
  rewrite binary_search_true. intros [r [i [Hr [Hin _]]]].
  exists r. split; [|order].
  apply (Permutation_in r (sorted_perm ranges)).
  apply list_elem_of_In. eapply list_elem_of_lookup_2; eauto.
Qed.

(** On ranges that do not overlap it finds every line that is in one. *)
Lemma binary_search_complete (line_num : Z) (ranges : list range) :
  non_overlapping ranges ->
  in_some_range line_num ranges -> binary_search line_num ranges = true.
Proof.
  intros [Hwf Hapart] [r [Hr Hin]].
  assert (Hmem : forall q i, sorted ranges !! i = Some q -> In q ranges).
  { intros q i Hq. apply (Permutation_in q (sorted_perm ranges)).
    apply list_elem_of_In. eapply list_elem_of_lookup_2; eauto. }
  assert (Hrs : In r (sorted ranges))
    by (apply (Permutation_in r (Permutation_sym (sorted_perm ranges))); auto).
  apply list_elem_of_In, list_elem_of_lookup_1 in Hrs. destruct Hrs as [j Hj].
  pose proof (sorted_ascending ranges) as Hasc.
  destruct (bisect_left_partition (sorted ranges) (line_num, line_num) Hasc)
    as [Hlen [Hbelow Habove]].
  apply binary_search_true.
  set (idx := bisect_left (sorted ranges) (line_num, line_num)) in *.
  destruct (Nat.lt_ge_cases j idx) as [Hlt|Hge].
  - destruct idx as [|k]; [lia|].
    destruct (sorted ranges !! k) as [q|] eqn:Hq.
    2:{ apply lookup_ge_None in Hq. lia. }
    exists q, k. split; [exact Hq|]. split; [|now left].
    pose proof (Hbelow k q (Nat.lt_succ_diag_r k) Hq) as Hqx.
    assert (Hrq : tuple_le r q)
      by (apply (ascending_lookup (sorted ranges) j k); auto; lia).
    assert (Hq_wf : well_formed q).
    { rewrite List.Forall_forall in Hwf. eapply Hwf, Hmem, Hq. }
    unfold well_formed in Hq_wf.
    destruct (Hapart r q Hr (Hmem q k Hq)) as [->|Hd]; order.
  - pose proof (lookup_lt_Some _ _ _ Hj) as Hjlen.
    destruct (sorted ranges !! idx) as [q|] eqn:Hq.
    2:{ apply lookup_ge_None in Hq. lia. }
    exists q, idx. split; [exact Hq|]. split; [|now right].
    pose proof (Habove idx q (Nat.le_refl idx) Hq) as Hqx.
    pose proof (Habove j r Hge Hj) as Hrx.
    assert (Hqr : tuple_le q r)
      by (apply (ascending_lookup (sorted ranges) idx j); auto).
    order.
Qed.

(** Whichever path is taken, a reported line is in one of the ranges. *)
Lemma is_line_in_ranges_sound (line_num : Z) (ranges : list range) :
  is_line_in_ranges line_num ranges = true -> in_some_range line_num ranges.
Proof.
  unfold is_line_in_ranges. destruct (length ranges <=? 5)%nat.
  - apply linear_scan_spec.
  - apply binary_search_sound.
Qed.

Lemma is_line_in_ranges_sound_witness :
  is_line_in_ranges 16 [(15, 17)] = true /\ in_some_range 16 [(15, 17)].
Proof.
  split; [reflexivity|].
  apply (is_line_in_ranges_sound 16 [(15, 17)]). reflexivity.
Defined.

(** Up to five ranges the answer is exact. *)
Lemma is_line_in_ranges_short (line_num : Z) (ranges : list range) :
  (length ranges <= 5)%nat ->
  (is_line_in_ranges line_num ranges = true <-> in_some_range line_num ranges).
Proof.
  intros Hlen. unfold is_line_in_ranges.
  destruct (Nat.leb_spec (length ranges) 5); [|lia]. apply linear_scan_spec.
Qed.

(** On ranges that do not overlap, as the hunks of one file's diff, the
    binary search and the linear scan agree, and the function returns
    true exactly for the lines that are in one of the ranges. *)
Theorem is_line_in_ranges_non_overlapping (line_num : Z) (ranges : list range) :
  non_overlapping ranges ->
  binary_search line_num ranges = linear_scan line_num ranges /\
  (is_line_in_ranges line_num ranges = true <-> in_some_range line_num ranges).
Proof.
  intros Hno.
  assert (Hbin : binary_search line_num ranges = true <->
                 in_some_range line_num ranges).
  { split; [apply binary_search_sound | now apply binary_search_complete]. }
  split.
  - apply eq_true_iff_eq. now rewrite Hbin, linear_scan_spec.
  - unfold is_line_in_ranges. destruct (length ranges <=? 5)%nat;
      [apply linear_scan_spec | exact Hbin].
Qed.

Lemma seven_hunks_non_overlapping :
  non_overlapping [(1, 2); (4, 5); (7, 8); (10, 11); (13, 14); (16, 17); (19, 20)].
Proof.
  split.
  - repeat constructor; unfold well_formed; simpl; lia.
  - intros r q Hr Hq. simpl in Hr, Hq.
    repeat match goal with H : _ \/ _ |- _ => destruct H as [<-|H] end;
      try contradiction; unfold apart; simpl;
      first [left; reflexivity | right; lia].
Qed.

Lemma is_line_in_ranges_non_overlapping_witness :
  let ranges := [(1, 2); (4, 5); (7, 8); (10, 11); (13, 14); (16, 17); (19, 20)] in
  binary_search 16 ranges = linear_scan 16 ranges /\
  (is_line_in_ranges 16 ranges = true <-> in_some_range 16 ranges).
Proof.
  exact (is_line_in_ranges_non_overlapping 16 _ seven_hunks_non_overlapping).
Defined.

(** C1: the two paths of [is_line_in_ranges] do not agree on every
    list.  With six ranges the binary search runs; it looks only at the
    two neighbours of the insertion point in the sorted list, and so
    misses line 50 in the range (1, 100), which encloses the five ranges
    that follow it, where the linear scan finds it. *)
Theorem C1_binary_search_misses_enclosing_range :
  let ranges := [(1, 100); (2, 3); (4, 5); (6, 7); (8, 9); (10, 11)] in
  in_some_range 50 ranges /\
  linear_scan 50 ranges = true /\
  binary_search 50 ranges = false /\
  is_line_in_ranges 50 ranges = false.
Proof.
  cbv zeta. split; [|repeat split; reflexivity].
  exists (1, 100). simpl. split; [now left | lia].
Qed.

End LookupFacts.

(** ** The elements of a report *)

Section XmlFacts.

Lemma walk_fresh (cs : list element) :
  Forall (fun c => forall path, fresh_below path 0 (descendants path c)) cs ->
  forall path i, fresh_below path i (walk descendants path i cs).
Proof.
  induction 1 as [|c cs Hc _ IH]; intros path i; simpl.
  - split; [constructor | intros q []].
  - destruct (Hc (path ++ [i])) as [Hnd Hpre].
    destruct (IH path (S i)) as [Hnd' Hpre'].
    assert (Hdeep : forall q, In q (map fst (descendants (path ++ [i]) c)) ->
                      exists k rest, q = path ++ i :: k :: rest).
    { intros q Hq. destruct (Hpre q Hq) as [k [rest [-> _]]].
      exists k, rest. now rewrite <- app_assoc. }
    split; simpl.
    + rewrite List.map_app. apply NoDup_cons. split.
      * rewrite list_elem_of_In, in_app_iff. intros [Hq|Hq].
        -- destruct (Hdeep _ Hq) as [k [rest Heq]].
           apply app_inv_head in Heq. discriminate.
        -- destruct (Hpre' _ Hq) as [j [rest [Heq Hj]]].
           apply app_inv_head in Heq. injection Heq as -> _. lia.
      * apply NoDup_app. repeat split; auto.
        intros q Hq Hq'. apply list_elem_of_In in Hq, Hq'.
        destruct (Hdeep _ Hq) as [k [rest ->]].
        destruct (Hpre' _ Hq') as [j [rest' [Heq Hj]]].
        apply app_inv_head in Heq. injection Heq as -> _. lia.
    + rewrite List.map_app. intros q [<-|Hq]; [exists i, []; split; [reflexivity|lia]|].
      apply in_app_iff in Hq. destruct Hq as [Hq|Hq].
      * destruct (Hdeep _ Hq) as [k [rest ->]]. exists i, (k :: rest). split; [reflexivity|lia].
      * destruct (Hpre' _ Hq) as [j [rest [-> Hj]]]. exists j, rest. split; [reflexivity|lia].
Qed.

Lemma descendants_fresh (e : element) :
  forall path, fresh_below path 0 (descendants path e).
Proof.
  induction e as [t a cs IH] using element_ind. intros path.
  simpl. apply walk_fresh. exact IH.
Qed.

(** No element object is listed twice by [findall]. *)
Lemma findall_descendants_NoDup (root : element) (t : str) :
  NoDup (map fst (findall_descendants root t)).
Proof.
  unfold findall_descendants.
  destruct (descendants_fresh root []) as [Hnd _].
  induction (descendants [] root) as [|n l IH]; simpl; [constructor|].
  simpl in Hnd. apply NoDup_cons in Hnd. destruct Hnd as [Hn Hl].
  destruct (has_tag t (snd n)); simpl; auto.
  apply NoDup_cons. split; auto.
  rewrite list_elem_of_In, in_map_iff in *. intros [x [Hx Hin]].
  apply Hn. exists x. split; auto. apply filter_In in Hin. tauto.
Qed.

End XmlFacts.

(** ** [get_changed_ranges] and [filter_errors_by_changed_lines] *)

Section FilterFacts.

Local Open Scope Z_scope.

Variable uni : ucd.
Variable run : subprocess.
Variables git_diff_range source_dir : str.

Local Abbreviation scan_locations :=
  (scan_locations uni run git_diff_range source_dir).
Local Abbreviation scan_errors :=
  (scan_errors uni run git_diff_range source_dir).
Local Abbreviation cached_ranges :=
  (cached_ranges uni run git_diff_range source_dir).

(** An exception of the diff command is turned into the empty list. *)
Lemma get_changed_ranges_failure (file_path : str) (e : exn) :
  valid_git_diff_range git_diff_range = true ->
  issubclass e Exception = true ->
  run (git_diff_cmd source_dir git_diff_range file_path) = Raise e ->
  get_changed_ranges uni run file_path git_diff_range source_dir = Ok [].
Proof.
  intros Hvalid He Hrun. unfold get_changed_ranges.
  rewrite Hvalid, Hrun. unfold try_except. cbn [negb existsb].
  now rewrite He.
Qed.

(** An invalid range is refused before git is run. *)
Lemma get_changed_ranges_invalid (file_path : str) :
  valid_git_diff_range git_diff_range = false ->
  get_changed_ranges uni run file_path git_diff_range source_dir
  = Raise ValueError.
Proof. intros Hvalid. unfold get_changed_ranges. now rewrite Hvalid. Qed.

(** Whatever git does, [get_changed_ranges] raises nothing but the
    exceptions that are no [Exception], once the range is valid. *)
Lemma get_changed_ranges_raises (file_path : str) (e : exn) :
  valid_git_diff_range git_diff_range = true ->
  get_changed_ranges uni run file_path git_diff_range source_dir = Raise e ->
  issubclass e Exception = false.
Proof.
  intros Hvalid. unfold get_changed_ranges, try_except. rewrite Hvalid.
  cbn [negb existsb].
  destruct (match run _ with Ok stdout => _ | Raise e0 => _ end) as [r|e0];
    [discriminate|].
  rewrite orb_false_r. destruct (issubclass e0 Exception) eqn:He0;
    [discriminate|]. now intros [= <-].
Qed.

(** The inner loop appends the error once or not at all. *)
Lemma scan_locations_appends error locations :
  forall acc cache l cache',
    scan_locations error locations acc cache = Ok (l, cache') ->
    l = acc \/ l = acc ++ [error].
Proof.
  induction locations as [|location locations IH]; intros acc cache l cache' H;
    cbn [FilterCppcheckResult.scan_locations] in H.
  - injection H as <- _. now left.
  - unfold bind, lift in H.
    destruct (line_of uni location) as [line_num|]; [|discriminate].
    destruct (get location (lit "file")) as [file_path|]; [|eauto].
    destruct (truthy file_path && (0 <? line_num)%Z); [|eauto].
    destruct (cached_ranges file_path cache)
      as [[ranges cache1]|]; [|discriminate].
    destruct (is_line_in_ranges line_num ranges); [|eauto].
    injection H as <- _. now right.
Qed.

(** What the outer loop adds are errors of its input, in their order,
    that passed the test on the id. *)
Lemma scan_errors_adds errors :
  forall acc cache l cache',
    scan_errors errors acc cache = Ok (l, cache') ->
    exists kept,
      l = acc ++ kept /\ sublist kept errors /\
      Forall (fun n => is_misra n = true) kept.
Proof.
  induction errors as [|error errors IH]; intros acc cache l cache' H;
    cbn [FilterCppcheckResult.scan_errors] in H.
  - injection H as <- _. exists []. rewrite app_nil_r. repeat constructor.
  - fold (is_misra error) in H. destruct (is_misra error) eqn:Hid; cbn [negb] in H.
    + unfold bind in H.
      destruct (scan_locations error _ acc cache) as [[acc1 cache1]|] eqn:Hloc;
        [|discriminate].
      apply IH in H. destruct H as [kept [-> [Hsub Hall]]].
      apply scan_locations_appends in Hloc. destruct Hloc as [->| ->].
      * exists kept. repeat split; auto. now apply sublist_cons.
      * exists (error :: kept). rewrite <- app_assoc.
        split; [reflexivity|]. split; [now apply sublist_skip | now constructor].
    + apply IH in H. destruct H as [kept [-> [Hsub Hall]]].
      exists kept. repeat split; auto. now apply sublist_cons.
Qed.

Lemma filter_errors_sublist root filtered_errors :
  filter_errors_by_changed_lines uni run git_diff_range source_dir root
    = Ok filtered_errors ->
  sublist filtered_errors (findall_descendants root (lit "error")) /\
  Forall (fun n => is_misra n = true) filtered_errors.
Proof.
  unfold filter_errors_by_changed_lines. intros H.
  destruct (scan_errors _ [] ∅) as [[l cache]|] eqn:Hscan; [|discriminate].
  injection H as <-. apply scan_errors_adds in Hscan.
  destruct Hscan as [kept [-> [Hsub Hall]]]. now split.
Qed.


(** *** A file whose diff fails *)

Section FailingFile.

Variable file_path : str.
Variable e : exn.
Hypothesis Hvalid : valid_git_diff_range git_diff_range = true.
Hypothesis He : issubclass e Exception = true.
Hypothesis Hrun : run (git_diff_cmd source_dir git_diff_range file_path) = Raise e.

Lemma cached_ranges_failing f cache ranges cache' :
  no_ranges_for file_path cache ->
  cached_ranges f cache = Ok (ranges, cache') ->
  no_ranges_for file_path cache' /\ (f = file_path -> ranges = []).
Proof.
  unfold FilterCppcheckResult.cached_ranges, no_ranges_for. intros Hinv H.
  destruct (decide (f = file_path)) as [->|Hne].
  - destruct Hinv as [Hc|Hc]; rewrite Hc in H.
    + rewrite (get_changed_ranges_failure file_path e Hvalid He Hrun) in H.
      injection H as <- <-. rewrite lookup_insert_eq. auto.
    + injection H as <- <-. auto.
  - split; [|contradiction].
    destruct (cache !! f) as [r|].
    + now injection H as <- <-.
    + destruct (get_changed_ranges _ _ _ _ _) as [r|]; [|discriminate].
      injection H as <- <-. now rewrite lookup_insert_ne.
Qed.

Lemma scan_locations_failing error locations :
  forall acc cache l cache',
    no_ranges_for file_path cache ->
    scan_locations error locations acc cache = Ok (l, cache') ->
    no_ranges_for file_path cache' /\
    (l = acc \/
     l = acc ++ [error] /\
     exists location,
       In location locations /\ get location (lit "file") <> Some file_path).
Proof.
  induction locations as [|location locations IH];
    intros acc cache l cache' Hinv H;
    cbn [FilterCppcheckResult.scan_locations] in H.
  - injection H as <- <-. auto.
  - assert (Hrest : forall cache0,
              no_ranges_for file_path cache0 ->
              scan_locations error locations acc cache0 = Ok (l, cache') ->
              no_ranges_for file_path cache' /\
              (l = acc \/
               l = acc ++ [error] /\
               exists location0,
                 In location0 (location :: locations) /\
                 get location0 (lit "file") <> Some file_path)).
    { intros cache0 Hinv0 H0.
      destruct (IH _ _ _ _ Hinv0 H0) as [Hinv' [->|[-> [loc [Hin Hne]]]]];
        split; auto.
      right. split; auto. exists loc. split; [now right | exact Hne]. }
    unfold bind, lift in H.
    destruct (line_of uni location) as [line_num|]; [|discriminate].
    destruct (get location (lit "file")) as [f|] eqn:Hf; [|eauto].
    destruct (truthy f && (0 <? line_num)); [|eauto].
    destruct (cached_ranges f cache) as [[ranges cache1]|] eqn:Hc;
      [|discriminate].
    destruct (cached_ranges_failing _ _ _ _ Hinv Hc) as [Hinv1 Hempty].
    destruct (is_line_in_ranges line_num ranges) eqn:Hin; [|eauto].
    injection H as <- <-. split; auto. right. split; auto.
    exists location. split; [now left|].
    rewrite Hf. intros [= ->]. rewrite (Hempty eq_refl) in Hin. discriminate.
Qed.

Lemma scan_errors_failing errors :
  forall acc cache l cache',
    no_ranges_for file_path cache ->
    Forall (located_elsewhere file_path) acc ->
    scan_errors errors acc cache = Ok (l, cache') ->
    Forall (located_elsewhere file_path) l.
Proof.
  induction errors as [|error errors IH]; intros acc cache l cache' Hinv Hacc H;
    cbn [FilterCppcheckResult.scan_errors] in H.
  - now injection H as <- _.
  - destruct (negb _); [eauto|].
    unfold bind in H.
    destruct (scan_locations error _ acc cache) as [[acc1 cache1]|] eqn:Hloc;
      [|discriminate].
    destruct (scan_locations_failing _ _ _ _ _ _ Hinv Hloc)
      as [Hinv1 [->|[-> Hel]]]; [eauto|].
    apply (IH _ _ _ _ Hinv1) in H; auto.
    apply Forall_app. split; auto.
Qed.

(** No finding is kept on account of a location in a file whose diff
    command fails: each error that is kept has a location elsewhere. *)
Lemma failed_diff_excludes_file root filtered_errors :
  filter_errors_by_changed_lines uni run git_diff_range source_dir root
    = Ok filtered_errors ->
  Forall (located_elsewhere file_path) filtered_errors.
Proof.
  unfold filter_errors_by_changed_lines. intros H.
  destruct (scan_errors _ [] ∅) as [[l cache]|] eqn:Hscan; [|discriminate].
  injection H as <-.
  apply (scan_errors_failing _ _ _ _ _ (or_introl (lookup_empty _)) (Forall_nil_2 _) Hscan).
Qed.

End FailingFile.

End FilterFacts.

(** ** What [filter_errors_by_changed_lines] returns *)

Section FilterResults.

Local Open Scope Z_scope.

(** The sample report against the hunk [@@ -10,0 +15,3 @@]: of its three
    findings only the first is kept. *)
Lemma sample_report_filtered (uni : ucd) :
  filter_errors_by_changed_lines uni Samples.git (lit "origin/main...HEAD")
                                 (lit ".") Samples.report
  = Ok [([1; 0]%nat, Samples.changed_twice)].
Proof. vm_compute. reflexivity. Qed.

Lemma get_changed_ranges_invalid_witness :
  valid_git_diff_range (lit "origin/main..HEAD") = false /\
  get_changed_ranges Samples.ascii_only Samples.git (lit "a.c")
                     (lit "origin/main..HEAD") (lit ".") = Raise ValueError.
Proof.
  split; [reflexivity|].
  apply (get_changed_ranges_invalid Samples.ascii_only Samples.git
           (lit "origin/main..HEAD") (lit ".") (lit "a.c")).
  reflexivity.
Defined.

(** C3: when the diff command raises an error, [get_changed_ranges]
    returns the empty list instead of raising; no line is in the empty
    list, so no finding is kept on account of a location in that file. *)
Theorem C3_failed_diff_yields_no_ranges (uni : ucd) (run : subprocess)
    (file_path git_diff_range source_dir : str) (e : exn) :
  valid_git_diff_range git_diff_range = true ->
  issubclass e Exception = true ->
  run (git_diff_cmd source_dir git_diff_range file_path) = Raise e ->
  get_changed_ranges uni run file_path git_diff_range source_dir = Ok [] /\
  (forall line_num, is_line_in_ranges line_num [] = false) /\
  (forall root filtered_errors,
     filter_errors_by_changed_lines uni run git_diff_range source_dir root
       = Ok filtered_errors ->
     Forall (located_elsewhere file_path) filtered_errors).
Proof.
  intros Hvalid He Hrun. split; [|split].
  - now apply get_changed_ranges_failure with e.
  - reflexivity.
  - intros root filtered_errors.
    now apply failed_diff_excludes_file with e.
Qed.

Lemma C3_failed_diff_witness :
  valid_git_diff_range (lit "origin/main...HEAD") = true /\
  issubclass FileNotFoundError Exception = true /\
  get_changed_ranges Samples.ascii_only Samples.no_git (lit "a.c")
                     (lit "origin/main...HEAD") (lit ".") = Ok [] /\
  (forall line_num, is_line_in_ranges line_num [] = false) /\
  (forall root filtered_errors,
     filter_errors_by_changed_lines Samples.ascii_only Samples.no_git
       (lit "origin/main...HEAD") (lit ".") root = Ok filtered_errors ->
     Forall (located_elsewhere (lit "a.c")) filtered_errors).
Proof.
  split; [reflexivity|]. split; [reflexivity|].
  apply (C3_failed_diff_yields_no_ranges Samples.ascii_only Samples.no_git
           (lit "a.c") (lit "origin/main...HEAD") (lit ".") FileNotFoundError);
    reflexivity.
Defined.

(** C6: the hunk header [@@ -10,0 +15,3 @@] gives the one range
    (15, 17). *)
Theorem C6_hunk_header_range (uni : ucd) :
  parse_diff_ranges uni (lit "@@ -10,0 +15,3 @@") = Ok [(15, 17)].
Proof. vm_compute. reflexivity. Qed.

(** C7: with the range set [(15, 17)], line 16 is in a changed range and
    line 20 is not; accordingly, of the sample report's findings at lines
    16 and 20 the first is kept and the second is not. *)
Theorem C7_line_16_changed_line_20_not :
  is_line_in_ranges 16 [(15, 17)] = true /\
  is_line_in_ranges 20 [(15, 17)] = false /\
  forall uni,
    parse_diff_ranges uni (lit "@@ -10,0 +15,3 @@") = Ok [(15, 17)] /\
    filter_errors_by_changed_lines uni Samples.git (lit "origin/main...HEAD")
                                   (lit ".") Samples.report
    = Ok [([1; 0]%nat, Samples.changed_twice)].
Proof.
  split; [reflexivity|]. split; [reflexivity|].
  intros uni. split; [vm_compute; reflexivity | apply sample_report_filtered].
Qed.

(** C9: every error that is returned has an id attribute, and it begins
    with misra-c2012; an error whose id does not is never returned,
    wherever its locations are. *)
Theorem C9_only_misra_findings (uni : ucd) (run : subprocess)
    (git_diff_range source_dir : str) (root : element)
    (filtered_errors : list node) :
  filter_errors_by_changed_lines uni run git_diff_range source_dir root
    = Ok filtered_errors ->
  (forall error,
     In error filtered_errors ->
     exists id,
       get (snd error) (lit "id") = Some id /\
       startswith id (lit "misra-c2012") = true) /\
  (forall error,
     startswith (get_default (snd error) (lit "id") []) (lit "misra-c2012")
     = false ->
     ~ In error filtered_errors).
Proof.
  intros H. apply filter_errors_sublist in H. destruct H as [_ Hall].
  rewrite List.Forall_forall in Hall.
  split.
  - intros error Hin. apply Hall in Hin.
    unfold is_misra, get_default, get in *.
    destruct (attrib (snd error) !! lit "id") as [id|]; [|discriminate].
    now exists id.
  - intros error Hid Hin. apply Hall in Hin. unfold is_misra in Hin. congruence.
Qed.

Lemma C9_only_misra_witness :
  filter_errors_by_changed_lines Samples.ascii_only Samples.git
    (lit "origin/main...HEAD") (lit ".") Samples.report
  = Ok [([1; 0]%nat, Samples.changed_twice)] /\
  (forall error,
     In error [([1; 0]%nat, Samples.changed_twice)] ->
     exists id,
       get (snd error) (lit "id") = Some id /\
       startswith id (lit "misra-c2012") = true) /\
  (forall error,
     startswith (get_default (snd error) (lit "id") []) (lit "misra-c2012")
     = false ->
     ~ In error [([1; 0]%nat, Samples.changed_twice)]).
Proof.
  split; [apply sample_report_filtered|].
  apply (C9_only_misra_findings Samples.ascii_only Samples.git
           (lit "origin/main...HEAD") (lit ".") Samples.report).
  apply sample_report_filtered.
Defined.

(** C10: no error element is returned twice: the positions of the
    returned elements in the report are pairwise different, and the
    elements come in the order of [findall]. *)
Theorem C10_each_error_at_most_once (uni : ucd) (run : subprocess)
    (git_diff_range source_dir : str) (root : element)
    (filtered_errors : list node) :
  filter_errors_by_changed_lines uni run git_diff_range source_dir root
    = Ok filtered_errors ->
  NoDup (map fst filtered_errors) /\
  sublist filtered_errors (findall_descendants root (lit "error")).
Proof.
  intros H. apply filter_errors_sublist in H. destruct H as [Hsub _].
  split; [|exact Hsub].
  apply sublist_NoDup with (map fst (findall_descendants root (lit "error"))).
  - apply findall_descendants_NoDup.
  - change (sublist (fst <$> filtered_errors)
                    (fst <$> findall_descendants root (lit "error"))).
    now apply fmap_sublist.
Qed.

Lemma C10_each_error_witness :
  filter_errors_by_changed_lines Samples.ascii_only Samples.git
    (lit "origin/main...HEAD") (lit ".") Samples.report
  = Ok [([1; 0]%nat, Samples.changed_twice)] /\
  NoDup (map fst [([1; 0]%nat, Samples.changed_twice)]) /\
  sublist [([1; 0]%nat, Samples.changed_twice)]
          (findall_descendants Samples.report (lit "error")).
Proof.
  split; [apply sample_report_filtered|].
  apply (C10_each_error_at_most_once Samples.ascii_only Samples.git
           (lit "origin/main...HEAD") (lit ".") Samples.report).
  apply sample_report_filtered.
Defined.

End FilterResults.

(** ** [write_csv_output] *)

Section CsvFacts.

Local Open Scope Z_scope.

Lemma utf8_len_app (s t : str) : utf8_len (s ++ t) = utf8_len s + utf8_len t.
Proof. unfold utf8_len. induction s; simpl; lia. Qed.

Lemma passed_app m csvfile rows1 rows2 :
  passed m csvfile (rows1 ++ rows2) <->
  passed m csvfile rows1 /\ passed m (csvfile ++ rows_text rows1) rows2.
Proof.
  revert csvfile. induction rows1 as [|r rows1 IH]; intros csvfile; simpl.
  - rewrite app_nil_r. tauto.
  - rewrite IH, <- app_assoc. tauto.
Qed.

Lemma write_locations_wrote max_size m error_id severity locations :
  capped max_size = Some m ->
  forall csvfile,
    wrote m csvfile (map (location_fields error_id severity) locations)
          (write_locations max_size error_id severity locations csvfile).
Proof.
  intros Hcap. induction locations as [|location locations IH]; intros csvfile;
    cbn [write_locations map].
  - exists [], []. simpl. rewrite app_nil_r. auto.
  - rewrite Hcap.
    set (fields := location_fields error_id severity location).
    destruct (Z.gtb_spec (tell csvfile + row_size fields) m) as [Hbig|Hfit].
    + exists [], (fields :: map (location_fields error_id severity) locations).
      simpl. rewrite app_nil_r. repeat split; auto. lia.
    + destruct (IH (writerow csvfile fields)) as [written [skipped [Hrows [Hp Hf]]]].
      exists (fields :: written), skipped. rewrite Hrows.
      split; [reflexivity|]. split; [simpl; split; [lia | exact Hp]|].
      unfold writerow in Hf. unfold rows_text in *. simpl.
      rewrite <- app_assoc in Hf. exact Hf.
Qed.

Lemma write_errors_wrote max_size m filtered_errors :
  capped max_size = Some m ->
  forall csvfile,
    wrote m csvfile (all_rows filtered_errors)
          (write_errors max_size filtered_errors csvfile).
Proof.
  intros Hcap. induction filtered_errors as [|error errors IH]; intros csvfile;
    cbn [write_errors all_rows flat_map].
  - exists [], []. simpl. rewrite app_nil_r. auto.
  - fold (all_rows errors).
    pose proof (write_locations_wrote max_size m
                  (replace (get_default (snd error) (lit "id") []) (lit "misra-c2012-") [])
                  (get_default (snd error) (lit "severity") [])
                  (findall (snd error) (lit "location")) Hcap csvfile) as Hloc.
    fold (error_rows error) in Hloc.
    destruct (write_locations _ _ _ _ _) as [csvfile1|csvfile1];
      destruct Hloc as [written [skipped [Hrows [Hp Hf]]]].
    + destruct Hf as [-> ->]. rewrite app_nil_r in Hrows.
      destruct (IH (csvfile ++ rows_text written))
        as [written' [skipped' [Hrows' [Hp' Hf']]]].
      exists (written ++ written'), skipped'.
      rewrite Hrows, Hrows', app_assoc. split; [reflexivity|].
      split; [apply passed_app; auto|].
      unfold rows_text in *. rewrite flat_map_app, app_assoc. exact Hf'.
    + destruct Hf as [-> Hrej].
      exists written, (skipped ++ all_rows errors).
      rewrite Hrows, app_assoc. split; [reflexivity|]. split; [exact Hp|].
      split; [reflexivity|]. destruct skipped; [contradiction | exact Hrej].
Qed.

(** Without a cap every row is written. *)
Lemma write_locations_all max_size error_id severity locations :
  capped max_size = None ->
  forall csvfile,
    write_locations max_size error_id severity locations csvfile
    = Continue (csvfile ++ rows_text (map (location_fields error_id severity) locations)).
Proof.
  intros Hcap. induction locations as [|location locations IH]; intros csvfile;
    cbn [write_locations map].
  - simpl. now rewrite app_nil_r.
  - rewrite Hcap, IH. unfold writerow, rows_text. simpl. now rewrite <- app_assoc.
Qed.

Lemma write_errors_all max_size filtered_errors :
  capped max_size = None ->
  forall csvfile,
    write_errors max_size filtered_errors csvfile
    = Continue (csvfile ++ rows_text (all_rows filtered_errors)).
Proof.
  intros Hcap. induction filtered_errors as [|error errors IH]; intros csvfile;
    cbn [write_errors all_rows flat_map].
  - simpl. now rewrite app_nil_r.
  - rewrite write_locations_all by exact Hcap. rewrite IH.
    unfold rows_text, error_rows. now rewrite flat_map_app, app_assoc.
Qed.

(** The loops only append to the file. *)
Lemma csv_written_header filtered_errors max_size :
  exists rows,
    csv_written filtered_errors max_size = csv_row header ++ rows_text rows.
Proof.
  unfold csv_written, writerow. simpl app.
  destruct (capped max_size) as [m|] eqn:Hcap.
  - destruct (write_errors_wrote max_size m filtered_errors Hcap (csv_row header))
      as [written [skipped [_ [_ Hf]]]].
    exists written. destruct (write_errors _ _ _); tauto.
  - rewrite write_errors_all by exact Hcap. eauto.
Qed.


Lemma row_size_pos (fields : list str) : 0 < row_size fields.
Proof. unfold row_size, len. rewrite List.length_app. simpl. lia. Qed.

(** A row that passed the size test found the file below the cap. *)
Lemma passed_below (m : Z) (csvfile : str) (before after : list (list str))
    (r : list str) :
  passed m csvfile (before ++ r :: after) ->
  tell (csvfile ++ rows_text before) < m.
Proof.
  rewrite passed_app. intros [_ [Hr _]]. pose proof (row_size_pos r). lia.
Qed.

(** The size test counts one byte for the end of a row where the writer
    puts two: the first row of the sample finding passes the test for a
    cap of 63 bytes and leaves a file of 64. *)
Lemma row_terminator_counted_once :
  tell (csv_written [([1; 0]%nat, Samples.changed_twice)] (Some 63)) = 64.
Proof. vm_compute. reflexivity. Qed.

(** C2, amended: the header row is written whatever the cap is.  With a cap, the rows
    written are a prefix of the rows of the findings, nothing follows a
    row that was refused, and each data row was written only when the
    file held less than [max_size] bytes. *)
Theorem C2_rows_start_below_cap (fs : gmap str str)
    (filtered_errors : list node) (output_file : str) (max_size : Z) :
  0 < max_size ->
  exists written skipped,
    all_rows filtered_errors = written ++ skipped /\
    write_csv_output fs filtered_errors output_file (Some max_size) !! output_file
      = Some (csv_row header ++ rows_text written) /\
    forall before r after,
      written = before ++ r :: after ->
      tell (csv_row header ++ rows_text before) < max_size.
Proof.
  intros Hpos.
  assert (Hcap : capped (Some max_size) = Some max_size).
  { unfold capped. destruct (Z.eqb_spec max_size 0); [lia | reflexivity]. }
  destruct (write_errors_wrote (Some max_size) max_size filtered_errors Hcap
              (csv_row header)) as [written [skipped [Hrows [Hp Hf]]]].
  exists written, skipped. split; [exact Hrows|]. split.
  - unfold write_csv_output. rewrite lookup_insert_eq. f_equal.
    unfold csv_written, writerow. simpl app.
    destruct (write_errors _ _ _); tauto.
  - intros before r after ->. now apply passed_below in Hp.
Qed.

Lemma C2_rows_start_below_cap_witness :
  0 < 63 /\
  exists written skipped,
    all_rows [([1; 0]%nat, Samples.changed_twice)] = written ++ skipped /\
    write_csv_output ∅ [([1; 0]%nat, Samples.changed_twice)] (lit "out.csv")
                     (Some 63) !! lit "out.csv"
      = Some (csv_row header ++ rows_text written) /\
    forall before r after,
      written = before ++ r :: after ->
      tell (csv_row header ++ rows_text before) < 63.
Proof.
  split; [lia|].
  apply (C2_rows_start_below_cap ∅ [([1; 0]%nat, Samples.changed_twice)]
           (lit "out.csv") 63).
  lia.
Defined.

(** C2 as first stated, a file never larger than the cap, does not
    hold: with no finding and a cap of 10 bytes the file holds the header
    row, 44 bytes. *)
Lemma C2_header_exceeds_small_cap :
  0 < 10 /\
  write_csv_output ∅ [] (lit "out.csv") (Some 10) !! lit "out.csv"
    = Some (csv_row header) /\
  tell (csv_row header) = 44 /\
  ~ tell (csv_row header) <= 10.
Proof.
  split; [lia|]. split; [reflexivity|]. split; [reflexivity|].
  vm_compute. intros H. now apply H.
Qed.

(** C8: whatever the findings and the cap, the file begins with the
    header row. *)
Theorem C8_header_is_first_row (fs : gmap str str)
    (filtered_errors : list node) (output_file : str) (max_size : option Z) :
  exists rest,
    write_csv_output fs filtered_errors output_file max_size !! output_file
    = Some (lit "misra-c2012-rule,severity,file,line,column"
              ++ [13; 10]%N ++ rest).
Proof.
  destruct (csv_written_header filtered_errors max_size) as [rows Hrows].
  exists (rows_text rows). unfold write_csv_output.
  rewrite lookup_insert_eq, Hrows. reflexivity.
Qed.

End CsvFacts.

(** ** [convert_misra_rules.py] *)

Section ConvertFacts.

(** C4: when the download raises an exception of class [URLError]
    ([HTTPError] included) or [JSONDecodeError], [fetch_misra_rules]
    returns the empty list, and the file written holds the four static
    rules, one per line, in their order. *)
Theorem C4_fetch_failure_static_rules (uni : ucd) (e : exn)
    (fs : gmap str str) (filename : str) :
  issubclass e URLError || issubclass e JSONDecodeError = true ->
  fetch_misra_rules uni (Raise e) = Ok [] /\
  main uni (Raise e) fs filename = Ok (write_config_file fs filename []) /\
  write_config_file fs filename [] !! filename
  = Some (lit "missingIncludeSystem" ++ [10%N]
          ++ lit "checkersReport" ++ [10%N]
          ++ lit "unmatchedSuppression" ++ [10%N]
          ++ lit "misra-config" ++ [10%N]).
Proof.
  intros He.
  assert (Hfetch : fetch_misra_rules uni (Raise e) = Ok []).
  { unfold fetch_misra_rules, try_except. cbn [existsb].
    rewrite orb_false_r. now rewrite He. }
  split; [exact Hfetch|]. split.
  - unfold main. now rewrite Hfetch.
  - unfold write_config_file. now rewrite lookup_insert_eq.
Qed.

Lemma C4_fetch_failure_witness :
  issubclass URLError URLError || issubclass URLError JSONDecodeError = true /\
  fetch_misra_rules Samples.ascii_only (Raise URLError) = Ok [] /\
  main Samples.ascii_only (Raise URLError) ∅ (lit "suppressions.txt")
  = Ok (write_config_file ∅ (lit "suppressions.txt") []) /\
  write_config_file ∅ (lit "suppressions.txt") [] !! lit "suppressions.txt"
  = Some (lit "missingIncludeSystem" ++ [10%N]
          ++ lit "checkersReport" ++ [10%N]
          ++ lit "unmatchedSuppression" ++ [10%N]
          ++ lit "misra-config" ++ [10%N]).
Proof.
  split; [reflexivity|].
  apply (C4_fetch_failure_static_rules Samples.ascii_only URLError ∅
           (lit "suppressions.txt")).
  reflexivity.
Defined.

(** C4 as first stated, for every network or decoding error, does not
    hold: an [OSError] raised while the body is read (a connection
    reset, a timeout) is no [URLError], and the [UnicodeDecodeError] of
    [decode] is no [JSONDecodeError]; both pass through
    [fetch_misra_rules] and [main], and no file is written. *)
Lemma C4_uncaught_network_error :
  fetch_misra_rules Samples.ascii_only (Raise OSError) = Raise OSError /\
  main Samples.ascii_only (Raise OSError) ∅ (lit "suppressions.txt")
  = Raise OSError /\
  fetch_misra_rules Samples.ascii_only (Raise UnicodeDecodeError)
  = Raise UnicodeDecodeError /\
  main Samples.ascii_only (Raise UnicodeDecodeError) ∅ (lit "suppressions.txt")
  = Raise UnicodeDecodeError.
Proof. repeat split. Qed.

(** An exception of another class is not caught. *)
Lemma fetch_misra_rules_propagates (uni : ucd) (e : exn) :
  issubclass e URLError || issubclass e JSONDecodeError = false ->
  fetch_misra_rules uni (Raise e) = Raise e.
Proof.
  intros He. unfold fetch_misra_rules, try_except. cbn [existsb].
  rewrite orb_false_r. now rewrite He.
Qed.

Lemma fetch_misra_rules_propagates_witness :
  issubclass UnicodeDecodeError URLError
    || issubclass UnicodeDecodeError JSONDecodeError = false /\
  fetch_misra_rules Samples.ascii_only (Raise UnicodeDecodeError)
  = Raise UnicodeDecodeError.
Proof.
  split; [reflexivity|].
  apply (fetch_misra_rules_propagates Samples.ascii_only UnicodeDecodeError).
  reflexivity.
Defined.

(** C5: the deviations "Rule 1.2" and "Directive 4.1" give the rules
    misra-c2012-1.2 and misra-c2012-4.1. *)
Theorem C5_extract_rule_and_directive (uni : ucd) :
  extract_rules uni (JArray [Samples.deviation "Rule 1.2";
                             Samples.deviation "Directive 4.1"])
  = Ok [lit "misra-c2012-1.2"; lit "misra-c2012-4.1"].
Proof. vm_compute. reflexivity. Qed.

End ConvertFacts.

(** ** The pattern of [extract_rules] *)

Section RuleFacts.

Variable uni : ucd.

Lemma span_prefix (p : N -> bool) (s rest : str) :
  Forall (fun c => p c = true) s ->
  match rest with c :: _ => p c = false | [] => True end ->
  span p (s ++ rest) = (s, rest).
Proof.
  intros Hs Hrest. induction Hs as [|c s Hc _ IH]; simpl.
  - destruct rest as [|c rest]; [reflexivity|]. simpl. now rewrite Hrest.
  - now rewrite Hc, IH.
Qed.

Lemma strip_prefix_app (prefix s : str) :
  strip_prefix prefix (prefix ++ s) = Some s.
Proof.
  induction prefix as [|c prefix IH]; simpl; [reflexivity|].
  now rewrite N.eqb_refl.
Qed.

Lemma search_hit {A} (at_start : str -> option A) (s : str) (m : A) :
  at_start s = Some m -> search at_start s = Some m.
Proof. intros H. destruct s; simpl; now rewrite H. Qed.

Lemma search_skip {A} (at_start : str -> option A) (c : N) (s : str) :
  at_start (c :: s) = None -> search at_start (c :: s) = search at_start s.
Proof. intros H. simpl. now rewrite H. Qed.

(** A decimal digit is no white space. *)
Lemma digit_not_space (c : N) : re_digit uni c = true -> re_space uni c = false.
Proof.
  unfold re_digit, re_space, digit_value, ascii_digit_value, ascii_unicode_space.
  destruct (c <? 128)%N.
  - destruct ((48 <=? c) && (c <=? 57))%N eqn:Hd; [|discriminate].
    intros _. apply andb_true_iff in Hd. destruct Hd as [H1 H2].
    apply N.leb_le in H1, H2.
    destruct (N.leb_spec 9 c), (N.leb_spec c 13), (N.leb_spec 28 c),
             (N.leb_spec c 32); simpl; auto; lia.
  - destruct (uni c); auto; discriminate.
Qed.

(** The number after the word: blanks, digits, a dot, digits. *)
Lemma number_after_spec (blanks major minor post : str) :
  blanks <> [] -> Forall (fun c => re_space uni c = true) blanks ->
  major <> [] -> Forall (fun c => re_digit uni c = true) major ->
  minor <> [] -> Forall (fun c => re_digit uni c = true) minor ->
  match post with c :: _ => re_digit uni c = false | [] => True end ->
  number_after uni (blanks ++ major ++ [chr "."] ++ minor ++ post)
  = Some (major ++ [chr "."] ++ minor).
Proof.
  intros Hb Hbs Hm Hms Hn Hns Hpost. unfold number_after.
  rewrite (span_prefix (re_space uni) blanks); [|exact Hbs|].
  2:{ destruct major as [|d major]; [contradiction|]. simpl.
      apply digit_not_space. now inversion Hms. }
  rewrite (span_prefix (re_digit uni) major); [|exact Hms|reflexivity].
  cbn [app]. rewrite (span_prefix (re_digit uni) minor); [|exact Hns|exact Hpost].
  destruct blanks; [contradiction|]. destruct major; [contradiction|].
  destruct minor; [contradiction|]. reflexivity.
Qed.

(** No match begins at a character other than R and D. *)
Lemma rule_start_other (c : N) (s : str) :
  c <> chr "R" -> c <> chr "D" -> rule_start uni (c :: s) = None.
Proof.
  intros HR HD. unfold rule_start.
  change (lit "Rule") with (chr "R" :: lit "ule").
  change (lit "Directive") with (chr "D" :: lit "irective").
  cbn [strip_prefix].
  destruct (N.eqb_spec (chr "R") c); [congruence|].
  destruct (N.eqb_spec (chr "D") c); [congruence|]. reflexivity.
Qed.

(** A deviation text that refers to a rule or a directive, after words
    without R and D, gives the rule of that number. *)
Theorem extract_rules_reference (word pre blanks major minor post : str) :
  word = lit "Rule" \/ word = lit "Directive" ->
  Forall (fun c => c <> chr "R" /\ c <> chr "D") pre ->
  blanks <> [] -> Forall (fun c => re_space uni c = true) blanks ->
  major <> [] -> Forall (fun c => re_digit uni c = true) major ->
  minor <> [] -> Forall (fun c => re_digit uni c = true) minor ->
  match post with c :: _ => re_digit uni c = false | [] => True end ->
  extract_rules uni
    (JArray [JObject {[ lit "deviation" :=
       JString (pre ++ word ++ blanks ++ major ++ [chr "."] ++ minor ++ post) ]}])
  = Ok [lit "misra-c2012-" ++ major ++ [chr "."] ++ minor].
Proof.
  intros Hword Hpre Hb Hbs Hm Hms Hn Hns Hpost.
  unfold extract_rules, iterate, extract_loop, getitem.
  rewrite lookup_singleton_eq.
  assert (Hsearch :
    search (rule_start uni)
           (pre ++ word ++ blanks ++ major ++ [chr "."] ++ minor ++ post)
    = Some (major ++ [chr "."] ++ minor)).
  { induction Hpre as [|c pre [HR HD] _ IH].
    - apply search_hit. rewrite app_nil_l. unfold rule_start. cbv beta zeta.
      destruct Hword as [-> | ->].
      + rewrite strip_prefix_app. cbv beta iota.
        now rewrite number_after_spec.
      + match goal with
        | |- context [strip_prefix (lit "Rule") ?t] =>
            replace (strip_prefix (lit "Rule") t) with (@None str)
              by reflexivity
        end.
        rewrite strip_prefix_app. cbv beta iota.
        now rewrite number_after_spec.
    - rewrite <- app_comm_cons. rewrite search_skip; [exact IH | now apply rule_start_other]. }
  now rewrite Hsearch.
Qed.

End RuleFacts.

(** Side conditions on literal texts. *)
Ltac literal :=
  repeat match goal with
  | |- Forall _ [] => constructor
  | |- Forall _ (_ :: _) => constructor
  | |- Forall _ ?l => let l' := eval vm_compute in l in change l with l'
  | |- _ /\ _ => split
  | |- _ <> _ => let H := fresh in intro H; vm_compute in H; discriminate H
  | |- _ = _ => reflexivity
  | |- True => exact I
  | |- is_ascii_digit _ => unfold is_ascii_digit
  | |- (_ <= _)%N => now vm_compute
  | |- match _ with _ => _ end => vm_compute
  end.

Lemma extract_rules_reference_witness :
  extract_rules Samples.ascii_only
    (JArray [JObject {[ lit "deviation" :=
       JString (lit "cf. " ++ lit "Rule" ++ lit " " ++ lit "11"
                  ++ [chr "."] ++ lit "5" ++ lit ": see below") ]}])
  = Ok [lit "misra-c2012-" ++ lit "11" ++ [chr "."] ++ lit "5"].
Proof.
  apply (extract_rules_reference Samples.ascii_only (lit "Rule")
           (lit "cf. ") (lit " ") (lit "11") (lit "5")
           (lit ": see below")); [now left | literal ..].
Defined.

(** ** The pattern of [parse_diff_ranges] *)

Section HunkFacts.

Local Open Scope Z_scope.

Variable uni : ucd.

Lemma ascii_digit_value_digit (c : N) :
  is_ascii_digit c -> ascii_digit_value c = Some (Z.of_N c - 48).
Proof.
  unfold is_ascii_digit, ascii_digit_value. intros [H1 H2].
  destruct (N.leb_spec 48 c); [|lia]. destruct (N.leb_spec c 57); [|lia].
  reflexivity.
Qed.

Lemma re_digit_ascii (c : N) : is_ascii_digit c -> re_digit uni c = true.
Proof.
  intros Hc. unfold re_digit, digit_value.
  destruct (N.ltb_spec c 128); [|unfold is_ascii_digit in Hc; lia].
  now rewrite ascii_digit_value_digit.
Qed.

Lemma int_digits_all (digits : str) :
  Forall is_ascii_digit digits ->
  forall acc n,
    int_digits acc n false digits
    = Some (fold_left (fun a c => 10 * a + (Z.of_N c - 48)) digits acc,
            (n + length digits)%nat, []).
Proof.
  induction 1 as [|c digits Hc _ IH]; intros acc n;
    cbn [int_digits fold_left length].
  - now rewrite Nat.add_0_r.
  - destruct (N.eqb_spec c (chr "_")) as [->|_].
    + unfold is_ascii_digit in Hc. change (chr "_") with 95%N in Hc. lia.
    + rewrite (ascii_digit_value_digit c Hc), IH.
      now rewrite Nat.add_succ_r.
Qed.

Lemma to_ascii_digits (digits : str) :
  Forall is_ascii_digit digits -> to_ascii uni digits = Some digits.
Proof.
  induction 1 as [|c digits Hc _ IH]; simpl; [reflexivity|].
  rewrite IH. unfold is_ascii_digit in Hc.
  destruct (N.ltb_spec c 127); [reflexivity | lia].
Qed.

(** [int] reads a string of ASCII digits as its decimal value, and
    refuses one that is longer than the limit. *)
Lemma int_decimal (digits : str) :
  digits <> [] -> Forall is_ascii_digit digits ->
  int uni digits
  = if (int_max_str_digits <? length digits)%nat then None
    else Some (decimal_value digits).
Proof.
  intros Hne Hd. unfold int. rewrite (to_ascii_digits digits Hd).
  destruct digits as [|c digits]; [contradiction|].
  pose proof Hd as Hd'. apply List.Forall_inv in Hd'.
  unfold int_ascii.
  assert (Hsp : span ascii_c_space (c :: digits) = ([], c :: digits)).
  { cbn [span]. unfold is_ascii_digit in Hd'. unfold ascii_c_space.
    destruct (N.leb_spec 9 c), (N.leb_spec c 13), (N.eqb_spec c 32);
      simpl; auto; lia. }
  rewrite Hsp. cbn [snd].
  destruct (N.eqb_spec c (chr "-")) as [->|_].
  { unfold is_ascii_digit in Hd'. change (chr "-") with 45%N in Hd'. lia. }
  destruct (N.eqb_spec c (chr "+")) as [->|_].
  { unfold is_ascii_digit in Hd'. change (chr "+") with 43%N in Hd'. lia. }
  rewrite (ascii_digit_value_digit c Hd').
  rewrite (int_digits_all (c :: digits) Hd 0 0). cbn [span snd Nat.add].
  reflexivity.
Qed.

Lemma hunk_start_other (c : N) (s : str) :
  c <> chr "+" -> hunk_start uni (c :: s) = None.
Proof.
  intros Hc. unfold hunk_start. destruct (N.eqb_spec c (chr "+")); congruence.
Qed.

Lemma search_hunk_skip (pre s : str) :
  Forall (fun c => c <> chr "+") pre ->
  search (hunk_start uni) (pre ++ s) = search (hunk_start uni) s.
Proof.
  induction 1 as [|c pre Hc _ IH]; [reflexivity|].
  rewrite <- app_comm_cons, search_skip; [exact IH | now apply hunk_start_other].
Qed.

Lemma hunk_start_counted (start count rest : str) :
  start <> [] -> Forall is_ascii_digit start ->
  count <> [] -> Forall is_ascii_digit count ->
  match rest with c :: _ => re_digit uni c = false | [] => True end ->
  hunk_start uni (chr "+" :: start ++ chr "," :: count ++ rest)
  = Some (start, Some count).
Proof.
  intros Hs Hsd Hc Hcd Hrest. unfold hunk_start.
  rewrite N.eqb_refl.
  rewrite (span_prefix (re_digit uni) start);
    [| eapply List.Forall_impl; [|exact Hsd]; apply re_digit_ascii | reflexivity].
  rewrite (span_prefix (re_digit uni) count);
    [| eapply List.Forall_impl; [|exact Hcd]; apply re_digit_ascii | exact Hrest].
  destruct start; [contradiction|]. destruct count; [contradiction|].
  reflexivity.
Qed.

Lemma split_one_line (s : str) :
  Forall (fun c => c <> 10%N) s -> split 10 s = [s].
Proof.
  induction 1 as [|c s Hc _ IH]; simpl; [reflexivity|].
  destruct (N.eqb_spec c 10); [contradiction|]. now rewrite IH.
Qed.

(** A hunk header [@@ -old +start,count @@ ...] gives the range from
    [start] to [start + count - 1], and none when [count] is zero;
    when one of the two numbers has more digits than [int] accepts, the
    function raises [ValueError]. *)
Theorem parse_diff_ranges_hunk (old start count tail : str) :
  Forall (fun c => c <> chr "+" /\ c <> 10%N) old ->
  start <> [] -> Forall is_ascii_digit start ->
  count <> [] -> Forall is_ascii_digit count ->
  Forall (fun c => c <> 10%N) tail ->
  parse_diff_ranges uni
    (lit "@@ -" ++ old ++ lit " +" ++ start ++ lit "," ++ count
       ++ lit " @@" ++ tail)
  = if ((int_max_str_digits <? length start)
        || (int_max_str_digits <? length count))%nat
    then Raise ValueError
    else Ok (if 0 <? decimal_value count
             then [(decimal_value start,
                    decimal_value start + decimal_value count - 1)]
             else []).
Proof.
  intros Hold Hs Hsd Hc Hcd Htail.
  assert (Hnl : forall digits, Forall is_ascii_digit digits ->
                  Forall (fun c => c <> 10%N) digits).
  { intros digits Hd. eapply List.Forall_impl; [|exact Hd].
    unfold is_ascii_digit. intros c Hc' ->. lia. }
  unfold parse_diff_ranges. rewrite split_one_line.
  2:{ repeat (apply Forall_app; split); auto.
      - literal.
      - eapply List.Forall_impl; [|exact Hold]. now intros c [_ H].
      - literal.
      - literal.
      - literal. }
  cbn [parse_lines].
  change (lit "@@ -" ++ ?x) with (lit "@@" ++ (lit " -" ++ x)).
  unfold startswith at 1. rewrite strip_prefix_app.
  change (lit "@@" ++ (lit " -" ++ ?x)) with (lit "@@ -" ++ x).
  replace (lit "@@ -" ++ old ++ lit " +" ++ start ++ lit "," ++ count
             ++ lit " @@" ++ tail)
    with ((lit "@@ -" ++ old ++ lit " ")
            ++ chr "+" :: start ++ chr "," :: count ++ lit " @@" ++ tail)
    by (now rewrite <- !app_assoc).
  rewrite search_hunk_skip.
  2:{ repeat (apply Forall_app; split).
      - literal.
      - eapply List.Forall_impl; [|exact Hold]. now intros c [H _].
      - literal. }
  rewrite (search_hit _ _ (start, Some count)).
  2:{ apply hunk_start_counted; auto. reflexivity. }
  rewrite (int_decimal start Hs Hsd), (int_decimal count Hc Hcd).
  destruct (int_max_str_digits <? length start)%nat,
           (int_max_str_digits <? length count)%nat; try reflexivity.
  cbn [orb]. destruct (0 <? decimal_value count); reflexivity.
Qed.

End HunkFacts.

Lemma parse_diff_ranges_hunk_witness :
  parse_diff_ranges Samples.ascii_only
    (lit "@@ -" ++ lit "10,0" ++ lit " +" ++ lit "15" ++ lit "," ++ lit "3"
       ++ lit " @@" ++ lit " static void f(void)")
  = if ((int_max_str_digits <? length (lit "15"))
        || (int_max_str_digits <? length (lit "3")))%nat
    then Raise ValueError
    else Ok (if (0 <? decimal_value (lit "3"))%Z
             then [(decimal_value (lit "15"),
                    decimal_value (lit "15") + decimal_value (lit "3") - 1)%Z]
             else []).
Proof.
  apply (parse_diff_ranges_hunk Samples.ascii_only (lit "10,0") (lit "15")
           (lit "3") (lit " static void f(void)")); literal.
Defined.

(** * Further properties of the scripts *)

Import FilterCppcheckScript.

(** ** [filter_errors_by_changed_lines] as a filter *)

Section FilterExact.

Local Open Scope Z_scope.

Variable uni : ucd.
Variable run : subprocess.
Variables git_diff_range source_dir : str.

Local Abbreviation scan_locations :=
  (scan_locations uni run git_diff_range source_dir).
Local Abbreviation scan_errors :=
  (scan_errors uni run git_diff_range source_dir).
Local Abbreviation cached_ranges :=
  (cached_ranges uni run git_diff_range source_dir).
Local Abbreviation coherent := (coherent uni run git_diff_range source_dir).
Local Abbreviation on_changed_line :=
  (on_changed_line uni run git_diff_range source_dir).
Local Abbreviation kept := (kept uni run git_diff_range source_dir).

Lemma coherent_empty : coherent ∅.
Proof. intros file_path ranges H. now rewrite lookup_empty in H. Qed.

(** A look into the cache gives what git would give, and keeps the
    cache coherent. *)
Lemma cached_ranges_coherent file_path cache ranges cache' :
  coherent cache ->
  cached_ranges file_path cache = Ok (ranges, cache') ->
  coherent cache' /\
  get_changed_ranges uni run file_path git_diff_range source_dir = Ok ranges.
Proof.
  unfold FilterCppcheckResult.cached_ranges. intros Hco H.
  destruct (cache !! file_path) as [r|] eqn:Hc.
  - injection H as <- <-. split; [exact Hco | now apply Hco].
  - destruct (get_changed_ranges _ _ _ _ _) as [r|] eqn:Hg; [|discriminate].
    injection H as <- <-. split; [|reflexivity].
    intros f r'. destruct (decide (file_path = f)) as [<-|Hne].
    + rewrite lookup_insert_eq. now intros [= <-].
    + rewrite lookup_insert_ne by exact Hne. apply Hco.
Qed.

Lemma scan_locations_exact error locations :
  forall acc cache l cache',
    coherent cache ->
    scan_locations error locations acc cache = Ok (l, cache') ->
    coherent cache' /\
    l = if existsb on_changed_line locations then acc ++ [error] else acc.
Proof.
  induction locations as [|location locations IH];
    intros acc cache l cache' Hco H;
    cbn [FilterCppcheckResult.scan_locations existsb] in *.
  - injection H as <- <-. auto.
  - unfold bind, lift in H.
    unfold FilterCppcheckScript.on_changed_line at 1.
    destruct (line_of uni location) as [line_num|]; [|discriminate].
    destruct (get location (lit "file")) as [file_path|]; [|eauto].
    destruct (truthy file_path && (0 <? line_num)); [|eauto].
    destruct (cached_ranges file_path cache) as [[ranges cache1]|] eqn:Hc;
      [|discriminate].
    destruct (cached_ranges_coherent _ _ _ _ Hco Hc) as [Hco1 ->].
    cbn [andb].
    destruct (is_line_in_ranges line_num ranges); [|eauto].
    injection H as <- <-. auto.
Qed.

Lemma scan_errors_exact errors :
  forall acc cache l cache',
    coherent cache ->
    scan_errors errors acc cache = Ok (l, cache') ->
    l = acc ++ List.filter kept errors.
Proof.
  induction errors as [|error errors IH]; intros acc cache l cache' Hco H;
    cbn [FilterCppcheckResult.scan_errors List.filter] in *.
  - injection H as <- _. now rewrite app_nil_r.
  - unfold FilterCppcheckScript.kept at 1. fold (is_misra error) in H.
    destruct (is_misra error); cbn [negb andb] in *; [|eauto].
    unfold bind in H.
    destruct (scan_locations error _ acc cache) as [[acc1 cache1]|] eqn:Hloc;
      [|discriminate].
    destruct (scan_locations_exact _ _ _ _ _ _ Hco Hloc) as [Hco1 ->].
    apply (IH _ _ _ _ Hco1) in H.
    destruct (existsb on_changed_line _); [|exact H].
    now rewrite <- app_assoc in H.
Qed.

Lemma filter_errors_filter (root : element) (filtered_errors : list node) :
  filter_errors_by_changed_lines uni run git_diff_range source_dir root
    = Ok filtered_errors ->
  filtered_errors
  = List.filter kept (findall_descendants root (lit "error")).
Proof.
  unfold filter_errors_by_changed_lines. intros H.
  destruct (scan_errors _ [] ∅) as [[l cache]|] eqn:Hscan; [|discriminate].
  injection H as <-. exact (scan_errors_exact _ _ _ _ _ coherent_empty Hscan).
Qed.

(** When it returns, [filter_errors_by_changed_lines] returns the MISRA
    errors that have a location with a file name, a positive line and
    the answer [true] of [is_line_in_ranges] for that line and the
    ranges of the file, each once, in the order of the report. *)
Theorem filter_errors_exact (root : element) (filtered_errors : list node) :
  filter_errors_by_changed_lines uni run git_diff_range source_dir root
    = Ok filtered_errors ->
  filtered_errors
  = List.filter kept (findall_descendants root (lit "error")).
Proof. apply filter_errors_filter. Qed.

End FilterExact.

Lemma filter_errors_exact_witness :
  filter_errors_by_changed_lines Samples.ascii_only Samples.git
    (lit "origin/main...HEAD") (lit ".") Samples.report
  = Ok [([1; 0]%nat, Samples.changed_twice)] /\
  [([1; 0]%nat, Samples.changed_twice)]
  = List.filter (kept Samples.ascii_only Samples.git
                      (lit "origin/main...HEAD") (lit "."))
                (findall_descendants Samples.report (lit "error")).
Proof.
  split; [apply sample_report_filtered|].
  apply (filter_errors_exact Samples.ascii_only Samples.git
           (lit "origin/main...HEAD") (lit ".") Samples.report).
  apply sample_report_filtered.
Defined.

(** ** What the filter can raise, and when it returns *)

Section FilterErrors.

Local Open Scope Z_scope.

Variable uni : ucd.
Variable run : subprocess.
Variables git_diff_range source_dir : str.

Local Abbreviation scan_locations :=
  (scan_locations uni run git_diff_range source_dir).
Local Abbreviation scan_errors :=
  (scan_errors uni run git_diff_range source_dir).
Local Abbreviation cached_ranges :=
  (cached_ranges uni run git_diff_range source_dir).
Local Abbreviation kept := (kept uni run git_diff_range source_dir).

Lemma get_changed_ranges_raise_kind file_path e :
  get_changed_ranges uni run file_path git_diff_range source_dir = Raise e ->
  value_error_or_interrupt e.
Proof.
  intros H. destruct (valid_git_diff_range git_diff_range) eqn:Hvalid.
  - right. now apply (get_changed_ranges_raises uni run git_diff_range
                        source_dir file_path).
  - left. rewrite get_changed_ranges_invalid in H by exact Hvalid.
    now injection H.
Qed.

Lemma scan_locations_raise_kind error locations :
  forall acc cache e,
    scan_locations error locations acc cache = Raise e ->
    value_error_or_interrupt e.
Proof.
  induction locations as [|location locations IH]; intros acc cache e H;
    cbn [FilterCppcheckResult.scan_locations] in H; [discriminate|].
  unfold bind, lift in H.
  destruct (line_of uni location) as [line_num|e0] eqn:Hline.
  2:{ injection H as <-. left. unfold line_of in Hline.
      destruct (get location (lit "line")) as [s|]; [|discriminate].
      destruct (int uni s); [discriminate | now injection Hline]. }
  destruct (get location (lit "file")) as [file_path|]; [|eauto].
  destruct (truthy file_path && (0 <? line_num)); [|eauto].
  unfold FilterCppcheckResult.cached_ranges in H.
  destruct (cache !! file_path) as [ranges|].
  - destruct (is_line_in_ranges line_num ranges); [discriminate | eauto].
  - destruct (get_changed_ranges _ _ _ _ _) as [ranges|e0] eqn:Hg.
    + destruct (is_line_in_ranges line_num ranges); [discriminate | eauto].
    + injection H as <-. now apply get_changed_ranges_raise_kind in Hg.
Qed.

(** [filter_errors_by_changed_lines] raises [ValueError] (a diff range
    of the wrong format, a line attribute that is no integer) or lets an
    interrupt of the diff command through, and nothing else. *)
Theorem filter_errors_raise_kind (root : element) (e : exn) :
  filter_errors_by_changed_lines uni run git_diff_range source_dir root
    = Raise e ->
  value_error_or_interrupt e.
Proof.
  unfold filter_errors_by_changed_lines.
  generalize (findall_descendants root (lit "error")) as errors.
  generalize (@nil node) as acc.
  generalize (∅ : gmap str (list range)) as cache.
  intros cache acc errors. revert acc cache.
  induction errors as [|error errors IH]; intros acc cache H;
    cbn [FilterCppcheckResult.scan_errors] in H; [discriminate|].
  destruct (negb _); [eauto|].
  unfold bind in H.
  destruct (scan_locations error _ acc cache) as [[acc1 cache1]|e0] eqn:Hloc.
  - eauto.
  - injection H as <-. now apply scan_locations_raise_kind in Hloc.
Qed.

End FilterErrors.

Lemma filter_errors_raise_kind_witness :
  filter_errors_by_changed_lines Samples.ascii_only Samples.git
    (lit "origin/main..HEAD") (lit ".") Samples.report = Raise ValueError /\
  value_error_or_interrupt ValueError.
Proof.
  split; [vm_compute; reflexivity|].
  apply (filter_errors_raise_kind Samples.ascii_only Samples.git
           (lit "origin/main..HEAD") (lit ".") Samples.report).
  vm_compute. reflexivity.
Defined.

(** ** [filter_cppcheck_results] and the script *)

Section ScriptFacts.

Local Open Scope Z_scope.

Variable uni : ucd.
Variable run : subprocess.
Variable parsed : outcome element.
Variable makedirs : list str * outcome unit.
Variable opened : outcome unit.
Variable fs : gmap str str.
Variables git_diff_range output_file : str.
Variable max_size : option Z.
Variable source_dir : str.

Local Abbreviation results :=
  (filter_cppcheck_results uni run parsed makedirs opened fs git_diff_range
                           output_file max_size source_dir).

Local Abbreviation filtered root :=
  (filter_errors_by_changed_lines uni run git_diff_range source_dir root).

(** What [try ... except Exception] lets through is no [Exception]. *)
Lemma try_except_Exception {A} (c : outcome A) (h : exn -> outcome A) (e : exn) :
  (forall e0, exists a, h e0 = Ok a) ->
  try_except c [Exception] h = Raise e -> issubclass e Exception = false.
Proof.
  intros Hh. unfold try_except. destruct c as [a|e0]; [discriminate|].
  cbn [existsb]. rewrite orb_false_r.
  destruct (issubclass e0 Exception) eqn:He0.
  - destruct (Hh e0) as [a ->]. discriminate.
  - now intros [= <-].
Qed.

(** The handler catches an [Exception] raised by the body. *)
Lemma try_except_caught {A} (h : exn -> outcome A) (e : exn) :
  issubclass e Exception = true ->
  try_except (Raise e) [Exception] h = h e.
Proof.
  intros He. unfold try_except. cbn [existsb]. now rewrite orb_false_r, He.
Qed.

(** The script ends with exit status 0, whatever fails in parsing the
    report, in git, in the filter or in writing the file, unless it is
    interrupted by an exception that is no [Exception]. *)
Theorem script_exit_status :
  match script uni run parsed makedirs opened fs git_diff_range output_file
               max_size source_dir with
  | Ok (status, _) => status = 0
  | Raise e => issubclass e Exception = false
  end.
Proof.
  unfold script. destruct results as [r|e] eqn:Hr; [reflexivity|].
  unfold filter_cppcheck_results in Hr.
  destruct (attempt _ _ _ _ _ _ _ _ _ _) as [dirs body].
  apply try_except_Exception in Hr; [exact Hr|]. eauto.
Qed.

(** When something fails with an [Exception], the function returns 0,
    prints no finding and changes no file: no CSV file is written, not
    even its header.  No directory is created when the report or the
    filter fails; when [os.makedirs] or [open] fails, the directories
    that [os.makedirs] created stay. *)
Theorem filter_cppcheck_results_failure (e : exn) (dirs : list str) :
  issubclass e Exception = true ->
  (dirs = [] /\
   (parsed = Raise e \/
    exists root, parsed = Ok root /\ filtered root = Raise e)) \/
  (dirs = fst makedirs /\
   exists root filtered_errors,
     parsed = Ok root /\ filtered root = Ok filtered_errors /\
     (snd makedirs = Raise e \/
      snd makedirs = Ok tt /\ opened = Raise e)) ->
  results
  = Ok {| returned := 0; files := fs; created := dirs; printed := [] |}.
Proof.
  intros He H. unfold filter_cppcheck_results, attempt.
  destruct H as [[-> [->|[root [-> ->]]]]
                |[-> [root [l [-> [-> H]]]]]];
    [now rewrite try_except_caught..|].
  unfold try_write_csv_output.
  destruct makedirs as [made ended]. cbn [fst snd] in *.
  destruct H as [->|[-> ->]]; now rewrite try_except_caught.
Qed.

(** A run touches no file but the output file; the count it returns is
    at most the number of error elements of the report; and when the
    count is positive the output file was written and begins with the
    header row. *)
Theorem filter_cppcheck_results_effect (r : result) :
  results = Ok r ->
  (forall path, path <> output_file -> files r !! path = fs !! path) /\
  0 <= returned r /\
  match parsed with
  | Ok root =>
      returned r <= Z.of_nat (length (findall_descendants root (lit "error")))
  | Raise _ => returned r = 0
  end /\
  (0 < returned r ->
   exists rest, files r !! output_file = Some (csv_row header ++ rest)).
Proof.
  unfold filter_cppcheck_results, attempt, try_write_csv_output. intros H.
  assert (Hfail : forall dirs,
    r = {| returned := 0; files := fs; created := dirs; printed := [] |} ->
    (forall path, path <> output_file -> files r !! path = fs !! path) /\
    0 <= returned r /\
    match parsed with
    | Ok root =>
        returned r <= Z.of_nat (length (findall_descendants root (lit "error")))
    | Raise _ => returned r = 0
    end /\
    (0 < returned r ->
     exists rest, files r !! output_file = Some (csv_row header ++ rest))).
  { intros dirs ->. cbn. repeat split; try lia. destruct parsed; lia. }
  unfold try_except in H.
  destruct parsed as [root|e0].
  2:{ destruct (existsb _ _); [injection H as <-; now eapply Hfail | discriminate]. }
  destruct (filter_errors_by_changed_lines _ _ _ _ _) as [l|e0] eqn:Hf.
  2:{ destruct (existsb _ _); [injection H as <-; now eapply Hfail | discriminate]. }
  destruct makedirs as [made [[]|e0]].
  2:{ destruct (existsb _ _); [injection H as <-; now eapply Hfail | discriminate]. }
  destruct opened as [[]|e0].
  2:{ destruct (existsb _ _); [injection H as <-; now eapply Hfail | discriminate]. }
  injection H as <-. cbn [returned files printed].
  apply filter_errors_sublist in Hf. destruct Hf as [Hsub _].
  apply sublist_length in Hsub.
  split; [|split; [lia | split; [lia|]]].
  - intros path Hne. unfold write_csv_output. now rewrite lookup_insert_ne.
  - intros _. destruct (csv_written_header l max_size) as [rows Hrows].
    exists (rows_text rows). unfold write_csv_output.
    now rewrite lookup_insert_eq, Hrows.
Qed.

End ScriptFacts.

Lemma filter_cppcheck_results_failure_witness :
  issubclass OSError Exception = true /\
  (exists filtered_errors,
     filter_errors_by_changed_lines Samples.ascii_only Samples.git
       (lit "origin/main...HEAD") (lit ".") Samples.report
     = Ok filtered_errors) /\
  filter_cppcheck_results Samples.ascii_only Samples.git (Ok Samples.report)
    ([lit "build"; lit "build/reports"], Ok tt) (Raise OSError) ∅
    (lit "origin/main...HEAD") (lit "build/reports/out.csv") None (lit ".")
  = Ok {| returned := 0; files := ∅;
          created := [lit "build"; lit "build/reports"]; printed := [] |}.
Proof.
  split; [reflexivity|]. split; [eexists; vm_compute; reflexivity|].
  apply (filter_cppcheck_results_failure Samples.ascii_only Samples.git
           (Ok Samples.report)
           ([lit "build"; lit "build/reports"], Ok tt) (Raise OSError) ∅
           (lit "origin/main...HEAD") (lit "build/reports/out.csv") None
           (lit ".") OSError [lit "build"; lit "build/reports"]);
    [reflexivity|].
  right. split; [reflexivity|]. exists Samples.report. eexists.
  split; [reflexivity|]. split; [vm_compute; reflexivity|].
  right. split; reflexivity.
Defined.

Lemma filter_cppcheck_results_effect_witness :
  exists r,
    filter_cppcheck_results Samples.ascii_only Samples.git (Ok Samples.report)
      ([], Ok tt) (Ok tt) ∅ (lit "origin/main...HEAD") (lit "out.csv") None
      (lit ".")
    = Ok r /\
    returned r = 1%Z /\
    (forall path, path <> lit "out.csv" -> files r !! path = (∅ : gmap str str) !! path) /\
    (0 <= returned r)%Z /\
    (returned r
     <= Z.of_nat (length (findall_descendants Samples.report (lit "error"))))%Z /\
    ((0 < returned r)%Z ->
     exists rest, files r !! lit "out.csv" = Some (csv_row header ++ rest)).
Proof.
  eexists. split; [vm_compute; reflexivity|]. split; [reflexivity|].
  apply (filter_cppcheck_results_effect Samples.ascii_only Samples.git
           (Ok Samples.report) ([], Ok tt) (Ok tt) ∅
           (lit "origin/main...HEAD") (lit "out.csv") None (lit ".")).
  vm_compute. reflexivity.
Defined.


(** ** More on [parse_diff_ranges] *)

Section ParseFacts.

Local Open Scope Z_scope.

Variable uni : ucd.

Lemma parse_lines_well_formed (lines : list str) :
  forall acc ranges,
    Forall well_formed acc ->
    parse_lines uni lines acc = Ok ranges -> Forall well_formed ranges.
Proof.
  induction lines as [|line lines IH]; intros acc ranges Hacc H;
    cbn [parse_lines] in H.
  - now injection H as <-.
  - destruct (startswith line (lit "@@")); [|eauto].
    destruct (search (hunk_start uni) line) as [[g1 g2]|]; [|eauto].
    destruct (int uni g1) as [start|]; [|discriminate].
    destruct (match g2 with Some g => int uni g | None => Some 1 end)
      as [count|]; [|discriminate].
    destruct (Z.ltb_spec 0 count); [|eauto].
    eapply IH; [|exact H]. apply Forall_app. split; [exact Hacc|].
    constructor; [|constructor]. unfold well_formed. simpl. lia.
Qed.

(** Every range that [parse_diff_ranges] returns has its start at or
    before its end: a hunk of count zero gives no range. *)
Theorem parse_diff_ranges_well_formed (diff_output : str)
    (ranges : list range) :
  parse_diff_ranges uni diff_output = Ok ranges -> Forall well_formed ranges.
Proof. apply parse_lines_well_formed. constructor. Qed.

(** The list built so far is only extended. *)
Lemma parse_lines_acc (lines : list str) :
  forall acc,
    parse_lines uni lines acc
    = match parse_lines uni lines [] with
      | Ok ranges => Ok (acc ++ ranges)
      | Raise e => Raise e
      end.
Proof.
  induction lines as [|line lines IH]; intros acc; cbn [parse_lines].
  - now rewrite app_nil_r.
  - destruct (startswith line (lit "@@")); [|apply IH].
    destruct (search (hunk_start uni) line) as [[g1 g2]|]; [|apply IH].
    destruct (int uni g1) as [start|]; [|reflexivity].
    destruct (match g2 with Some g => int uni g | None => Some 1 end)
      as [count|]; [|reflexivity].
    destruct (0 <? count); [|apply IH].
    rewrite (IH (acc ++ _)), (IH ([] ++ _)).
    destruct (parse_lines uni lines []); [|reflexivity].
    now rewrite <- app_assoc.
Qed.

Lemma parse_lines_app (lines1 lines2 : list str) :
  forall acc,
    parse_lines uni (lines1 ++ lines2) acc
    = match parse_lines uni lines1 acc with
      | Ok ranges => parse_lines uni lines2 ranges
      | Raise e => Raise e
      end.
Proof.
  induction lines1 as [|line lines1 IH]; intros acc;
    cbn [parse_lines app]; [reflexivity|].
  destruct (startswith line (lit "@@")); [|apply IH].
  destruct (search (hunk_start uni) line) as [[g1 g2]|]; [|apply IH].
  destruct (int uni g1) as [start|]; [|reflexivity].
  destruct (match g2 with Some g => int uni g | None => Some 1 end)
    as [count|]; [|reflexivity].
  destruct (0 <? count); apply IH.
Qed.

Lemma split_nonempty (sep : N) (s : str) : split sep s <> [].
Proof.
  destruct s as [|c s]; cbn [split]; [discriminate|].
  destruct (c =? sep)%N; [discriminate|]. now destruct (split sep s).
Qed.

Lemma split_newline_app (a b : str) :
  split 10 (a ++ 10%N :: b) = split 10 a ++ split 10 b.
Proof.
  induction a as [|c a IH]; cbn [app split].
  - reflexivity.
  - destruct (c =? 10)%N; [now rewrite IH|].
    rewrite IH. pose proof (split_nonempty 10 a).
    destruct (split 10 a); [contradiction | reflexivity].
Qed.

(** The ranges of two diff outputs put one after the other, with a
    newline between, are the ranges of the first followed by those of
    the second. *)
Theorem parse_diff_ranges_concat (a b : str) (ranges_a ranges_b : list range) :
  parse_diff_ranges uni a = Ok ranges_a ->
  parse_diff_ranges uni b = Ok ranges_b ->
  parse_diff_ranges uni (a ++ 10%N :: b) = Ok (ranges_a ++ ranges_b).
Proof.
  unfold parse_diff_ranges. intros Ha Hb.
  now rewrite split_newline_app, parse_lines_app, Ha, parse_lines_acc, Hb.
Qed.

End ParseFacts.

Lemma parse_diff_ranges_well_formed_witness :
  parse_diff_ranges Samples.ascii_only (lit "@@ -10,0 +15,3 @@")
  = Ok [(15, 17)%Z] /\
  Forall well_formed [(15, 17)%Z].
Proof.
  split; [vm_compute; reflexivity|].
  apply (parse_diff_ranges_well_formed Samples.ascii_only
           (lit "@@ -10,0 +15,3 @@")).
  vm_compute. reflexivity.
Defined.

Lemma parse_diff_ranges_concat_witness :
  parse_diff_ranges Samples.ascii_only
    (lit "@@ -10,0 +15,3 @@" ++ 10%N :: lit "@@ -40 +43 @@")
  = Ok ([(15, 17)%Z] ++ [(43, 43)%Z]).
Proof.
  apply (parse_diff_ranges_concat Samples.ascii_only
           (lit "@@ -10,0 +15,3 @@") (lit "@@ -40 +43 @@"));
    vm_compute; reflexivity.
Defined.

(** ** The format of the diff range *)

Section RangeFormat.

Lemma span_spec (p : N -> bool) (s a b : str) :
  span p s = (a, b) ->
  s = a ++ b /\ Forall (fun c => p c = true) a.
Proof.
  revert a b. induction s as [|c s IH]; intros a b H; cbn [span] in H.
  - injection H as <- <-. auto.
  - destruct (p c) eqn:Hc.
    + destruct (span p s) as [a' b'] eqn:Hs. injection H as <- <-.
      destruct (IH _ _ eq_refl) as [-> Ha]. split; [reflexivity|].
      now constructor.
    + injection H as <- <-. auto.
Qed.

Lemma strip_prefix_Some (prefix s t : str) :
  strip_prefix prefix s = Some t -> s = prefix ++ t.
Proof.
  revert s. induction prefix as [|p prefix IH]; intros s H; cbn in H.
  - now injection H as <-.
  - destruct s as [|c s]; [discriminate|].
    destruct (N.eqb_spec p c) as [->|]; [|discriminate].
    cbn. f_equal. now apply IH.
Qed.

Lemma ref_to_end_true (t : str) :
  ref_to_end t = true ->
  exists b, b <> [] /\ Forall (fun c => ref_char c = true) b /\
            (t = b \/ t = b ++ [10%N]).
Proof.
  unfold ref_to_end. destruct (span ref_char t) as [name rest] eqn:Hs.
  apply span_spec in Hs. destruct Hs as [-> Hname].
  intros H. apply andb_true_iff in H. destruct H as [Hne Hrest].
  exists name. split; [now destruct name|]. split; [exact Hname|].
  destruct rest as [|c [|c' rest]]; try discriminate.
  - left. now rewrite app_nil_r.
  - right. now apply N.eqb_eq in Hrest as ->.
Qed.

Lemma dots_and_ref_true (s : str) :
  dots_and_ref s = true ->
  exists a b,
    Forall (fun c => ref_char c = true) a /\ b <> [] /\
    Forall (fun c => ref_char c = true) b /\
    (s = a ++ lit "..." ++ b \/ s = a ++ lit "..." ++ b ++ [10%N]).
Proof.
  induction s as [|c s IH]; cbn [dots_and_ref]; [discriminate|].
  intros H. apply orb_true_iff in H. destruct H as [H|H].
  - destruct (strip_prefix (lit "...") (c :: s)) as [t|] eqn:Ht; [|discriminate].
    apply strip_prefix_Some in Ht. apply ref_to_end_true in H.
    destruct H as [b [Hb [Hbs Hcase]]].
    exists [], b. split; [constructor|]. split; [exact Hb|].
    split; [exact Hbs|].
    rewrite Ht. destruct Hcase as [->| ->]; auto.
  - apply andb_true_iff in H. destruct H as [Hc H].
    destruct (IH H) as [a [b [Ha [Hb [Hbs Hcase]]]]].
    exists (c :: a), b. split; [now constructor|]. split; [exact Hb|].
    split; [exact Hbs|].
    destruct Hcase as [->| ->]; auto.
Qed.

Lemma dots_and_ref_built (a b tail : str) :
  Forall (fun c => ref_char c = true) a ->
  b <> [] -> Forall (fun c => ref_char c = true) b ->
  tail = [] \/ tail = [10%N] ->
  dots_and_ref (a ++ lit "..." ++ b ++ tail) = true.
Proof.
  intros Ha Hb Hbs Htail. induction Ha as [|c a Hc _ IH].
  - change ([] ++ lit "..." ++ b ++ tail)
      with (chr "." :: lit ".." ++ b ++ tail).
    cbn [dots_and_ref].
    change (chr "." :: lit ".." ++ b ++ tail) with (lit "..." ++ b ++ tail).
    rewrite strip_prefix_app. unfold ref_to_end.
    rewrite (span_prefix ref_char b tail Hbs).
    + destruct b; [contradiction|]. now destruct Htail as [->| ->].
    + now destruct Htail as [->| ->].
  - rewrite <- app_comm_cons. cbn [dots_and_ref].
    rewrite Hc, IH. apply orb_true_r.
Qed.

Lemma valid_git_diff_range_iff (s : str) :
  valid_git_diff_range s = true <-> three_dot_range s.
Proof.
  unfold valid_git_diff_range, three_dot_range. split.
  - destruct s as [|c s]; [discriminate|]. intros H.
    apply andb_true_iff in H. destruct H as [Hc H].
    apply dots_and_ref_true in H.
    destruct H as [a [b [Ha [Hb [Hbs Hcase]]]]].
    exists (c :: a), b.
    split; [discriminate|]. split; [exact Hb|].
    split; [now constructor|]. split; [exact Hbs|].
    destruct Hcase as [->| ->]; auto.
  - intros [a [b [Ha [Hb [Has [Hbs Hcase]]]]]].
    destruct a as [|c a]; [contradiction|].
    apply List.Forall_cons_iff in Has. destruct Has as [Hc Has].
    assert (Hs : exists tail, (tail = [] \/ tail = [10%N]) /\
                   s = c :: a ++ lit "..." ++ b ++ tail).
    { destruct Hcase as [->| ->].
      - exists []. split; [now left|]. now rewrite app_nil_r.
      - exists [10%N]. split; [now right|]. reflexivity. }
    destruct Hs as [tail [Htail ->]].
    rewrite Hc. now apply dots_and_ref_built.
Qed.

(** The range format that [get_changed_ranges] accepts: two non-empty
    names of letters, digits and [._/-] with three dots between, and
    nothing else but possibly one newline at the end. *)
Theorem valid_git_diff_range_spec (s : str) :
  valid_git_diff_range s = true <-> three_dot_range s.
Proof. apply valid_git_diff_range_iff. Qed.


End RangeFormat.

(** ** More on [write_csv_output] and [print_human_readable] *)

Section CsvMore.

Local Open Scope Z_scope.

Lemma utf8_len_ge (s : str) : len s <= utf8_len s.
Proof.
  unfold len, utf8_len. induction s as [|c s IH]; cbn [length fold_right]; [lia|].
  unfold utf8_len_char at 1.
  destruct (c <? 128)%N, (c <? 2048)%N, (c <? 65536)%N; lia.
Qed.

Lemma csv_field_length (field : str) :
  (length field <= length (csv_field field))%nat.
Proof.
  unfold csv_field. destruct (needs_quotes field); [|lia].
  cbn [length]. rewrite List.length_app.
  assert (length field
          <= length (flat_map (fun c => if (c =? quotechar)%N then [c; c] else [c])
                              field))%nat; [|lia].
  induction field as [|c field IH]; cbn [flat_map length]; [lia|].
  rewrite List.length_app. destruct (c =? quotechar)%N; cbn [length]; lia.
Qed.

Lemma join_length_le (sep : str) (parts parts' : list str) :
  Forall2 (fun p p' => (length p <= length p')%nat) parts parts' ->
  (length (join sep parts) <= length (join sep parts'))%nat.
Proof.
  induction 1 as [|p p' parts parts' Hp Hparts IH]; [cbn; lia|].
  destruct Hparts as [|q q' parts parts' Hq Hparts].
  - exact Hp.
  - change (join sep (p :: q :: parts)) with (p ++ sep ++ join sep (q :: parts)).
    change (join sep (p' :: q' :: parts'))
      with (p' ++ sep ++ join sep (q' :: parts')).
    rewrite !List.length_app. lia.
Qed.

(** The size test never counts more than the row takes in the file. *)
Lemma row_size_lt (fields : list str) : row_size fields < tell (csv_row fields).
Proof.
  unfold row_size, tell, csv_row.
  eapply Z.lt_le_trans; [|apply utf8_len_ge].
  unfold len. rewrite !List.length_app. cbn [length].
  assert (length (join (lit ",") fields)
          <= length (join (lit ",") (map csv_field fields)))%nat; [|lia].
  apply join_length_le. induction fields; constructor; auto.
  apply csv_field_length.
Qed.

Lemma passed_fits (m : Z) (rows : list (list str)) :
  forall csvfile,
    tell (csvfile ++ rows_text rows) <= m -> passed m csvfile rows.
Proof.
  induction rows as [|r rows IH]; intros csvfile H; cbn [passed]; [exact I|].
  unfold rows_text in *. cbn [flat_map] in H. rewrite app_assoc in H.
  split; [|now apply IH].
  pose proof (row_size_lt r). unfold tell in *.
  rewrite !utf8_len_app in H.
  assert (0 <= utf8_len (flat_map csv_row rows)).
  { pose proof (utf8_len_ge (flat_map csv_row rows)). unfold len in *. lia. }
  lia.
Qed.

(** The state of the file for each form of the cap. *)
Lemma csv_written_rows (filtered_errors : list node) (max_size : option Z) :
  exists written skipped,
    all_rows filtered_errors = written ++ skipped /\
    csv_written filtered_errors max_size = csv_row header ++ rows_text written /\
    match capped max_size with
    | None => skipped = []
    | Some m =>
        passed m (csv_row header) written /\
        (skipped = [] \/
         rejected m (csv_row header ++ rows_text written) skipped)
    end.
Proof.
  unfold csv_written, writerow. cbn [app].
  destruct (capped max_size) as [m|] eqn:Hcap.
  - destruct (write_errors_wrote max_size m filtered_errors Hcap (csv_row header))
      as [written [skipped [Hrows [Hp Hf]]]].
    exists written, skipped. split; [exact Hrows|].
    destruct (write_errors _ _ _) as [f|f]; destruct Hf as [-> Hs];
      (split; [reflexivity|]); (split; [exact Hp|]); auto.
  - rewrite write_errors_all by exact Hcap.
    exists (all_rows filtered_errors), []. now rewrite app_nil_r.
Qed.

Lemma csv_written_no_cap (filtered_errors : list node) (max_size : option Z) :
  capped max_size = None ->
  csv_written filtered_errors max_size
  = csv_row header ++ rows_text (all_rows filtered_errors).
Proof.
  intros Hcap.
  destruct (csv_written_rows filtered_errors max_size)
    as [written [skipped [Hrows [Hfile Hs]]]].
  rewrite Hcap in Hs. subst skipped. rewrite app_nil_r in Hrows.
  now rewrite Hrows.
Qed.

(** Without a cap, and with the cap 0, which counts as none, the file
    holds the header row and a row for each location of each finding. *)
Theorem csv_written_uncapped (filtered_errors : list node)
    (max_size : option Z) :
  max_size = None \/ max_size = Some 0 ->
  csv_written filtered_errors max_size
  = csv_row header ++ rows_text (all_rows filtered_errors).
Proof.
  intros H. apply csv_written_no_cap. destruct H as [->| ->]; reflexivity.
Qed.

(** A cap that the complete file respects changes nothing. *)
Theorem csv_written_cap_sufficient (filtered_errors : list node) (m : Z) :
  tell (csv_written filtered_errors None) <= m ->
  csv_written filtered_errors (Some m) = csv_written filtered_errors None.
Proof.
  rewrite (csv_written_no_cap filtered_errors None) by reflexivity.
  intros Hfit.
  destruct (csv_written_rows filtered_errors (Some m))
    as [written [skipped [Hrows [Hfile Hs]]]].
  rewrite Hfile, Hrows.
  destruct (capped (Some m)) as [m'|] eqn:Hcap.
  - assert (m' = m) as ->.
    { unfold capped in Hcap. destruct (m =? 0); congruence. }
    destruct Hs as [_ [->|Hrej]]; [now rewrite app_nil_r|].
    destruct skipped as [|r skipped]; [contradiction|].
    exfalso. cbn [rejected] in Hrej.
    rewrite Hrows in Hfit. unfold rows_text in Hfit.
    rewrite flat_map_app in Hfit. cbn [flat_map] in Hfit.
    pose proof (row_size_lt r) as Hr. unfold tell, rows_text in *.
    rewrite !utf8_len_app in Hfit. rewrite utf8_len_app in Hrej.
    assert (0 <= utf8_len (flat_map csv_row skipped)).
    { pose proof (utf8_len_ge (flat_map csv_row skipped)). unfold len in *. lia. }
    lia.
  - subst skipped. now rewrite app_nil_r.
Qed.

(** A cap no larger than the header row leaves the header alone in the
    file. *)
Theorem csv_written_small_cap (filtered_errors : list node) (m : Z) :
  m <> 0 -> m <= 44 ->
  csv_written filtered_errors (Some m) = csv_row header.
Proof.
  intros Hne Hm.
  destruct (csv_written_rows filtered_errors (Some m))
    as [written [skipped [_ [Hfile Hs]]]].
  assert (Hcap : capped (Some m) = Some m).
  { unfold capped. destruct (Z.eqb_spec m 0); [contradiction | reflexivity]. }
  rewrite Hcap in Hs. destruct Hs as [Hp _].
  destruct written as [|r written].
  - rewrite Hfile. apply app_nil_r.
  - cbn [passed] in Hp. destruct Hp as [Hr _].
    pose proof (row_size_pos r).
    change (tell (csv_row header)) with 44 in Hr. lia.
Qed.

Lemma print_human_readable_length (filtered_errors : list node) :
  length (print_human_readable filtered_errors)
  = length (all_rows filtered_errors).
Proof.
  unfold print_human_readable, all_rows, error_rows.
  induction filtered_errors as [|error errors IH]; [reflexivity|].
  cbn [flat_map]. rewrite !List.length_app, !List.length_map. now f_equal.
Qed.

(** The file always holds whole rows: the header and the first rows of
    the findings.  What is printed is never cut: there is a line for
    each row, written or not. *)
Theorem printed_covers_csv (filtered_errors : list node)
    (max_size : option Z) :
  exists written skipped,
    all_rows filtered_errors = written ++ skipped /\
    csv_written filtered_errors max_size = csv_row header ++ rows_text written /\
    length (print_human_readable filtered_errors)
    = (length written + length skipped)%nat.
Proof.
  destruct (csv_written_rows filtered_errors max_size)
    as [written [skipped [Hrows [Hfile _]]]].
  exists written, skipped. split; [exact Hrows|]. split; [exact Hfile|].
  now rewrite print_human_readable_length, Hrows, List.length_app.
Qed.

End CsvMore.

(** ** More on [convert_misra_rules.py] *)

Import ConvertVocabulary.

Section ConvertMore.

Variable uni : ucd.

Lemma search_Some {A} (at_start : str -> option A) (s : str) (m : A) :
  search at_start s = Some m -> exists t, at_start t = Some m.
Proof.
  induction s as [|c s IH]; cbn [search].
  - destruct (at_start []) eqn:H; [|discriminate]. intros [= <-]. eauto.
  - destruct (at_start (c :: s)) eqn:H; [intros [= <-]; eauto | exact IH].
Qed.

Lemma number_after_Some (s g : str) :
  number_after uni s = Some g ->
  exists major minor,
    major <> [] /\ minor <> [] /\
    Forall (fun c => re_digit uni c = true) major /\
    Forall (fun c => re_digit uni c = true) minor /\
    g = major ++ [chr "."] ++ minor.
Proof.
  unfold number_after.
  destruct (span (re_space uni) s) as [blanks s1].
  destruct (span (re_digit uni) s1) as [major s2] eqn:Hmajor.
  destruct s2 as [|c s3]; [discriminate|].
  destruct (span (re_digit uni) s3) as [minor s4] eqn:Hminor. cbn [fst].
  destruct (truthy blanks); [|discriminate].
  destruct major as [|d major]; [discriminate|].
  destruct (N.eqb_spec c (chr ".")) as [->|]; [|discriminate].
  destruct minor as [|d' minor]; [discriminate|].
  intros [= <-]. apply span_spec in Hmajor, Hminor.
  exists (d :: major), (d' :: minor).
  repeat split; try discriminate; tauto.
Qed.

Lemma rule_start_Some (s g : str) :
  rule_start uni s = Some g ->
  rule_identifier uni (lit "misra-c2012-" ++ g).
Proof.
  unfold rule_start. intros H.
  assert (Hn : exists t, number_after uni t = Some g).
  { destruct (strip_prefix (lit "Rule") s) as [t|].
    - destruct (number_after uni t) eqn:Ht.
      + injection H as <-. eauto.
      + destruct (strip_prefix (lit "Directive") s); [eauto | discriminate].
    - destruct (strip_prefix (lit "Directive") s); [eauto | discriminate]. }
  destruct Hn as [t Ht]. apply number_after_Some in Ht.
  destruct Ht as [major [minor [H1 [H2 [H3 [H4 ->]]]]]].
  exists major, minor. auto.
Qed.

Lemma extract_loop_identifiers (items : list json) :
  forall acc rules,
    Forall (rule_identifier uni) acc ->
    extract_loop uni items acc = Ok rules ->
    Forall (rule_identifier uni) rules.
Proof.
  induction items as [|item items IH]; intros acc rules Hacc H;
    cbn [extract_loop] in H.
  - now injection H as <-.
  - destruct (getitem item (lit "deviation")) as [v|]; [|discriminate].
    destruct v as [| | |text| |]; try discriminate.
    destruct (search (rule_start uni) text) as [g|] eqn:Hs; [|eauto].
    eapply IH; [|exact H]. apply Forall_app. split; [exact Hacc|].
    constructor; [|constructor].
    apply search_Some in Hs. destruct Hs as [t Ht]. now apply rule_start_Some in Ht.
Qed.

(** Every rule that [extract_rules] returns is [misra-c2012-] followed by
    digits, a dot and digits. *)
Theorem extract_rules_identifiers (deviations : json) (rules : list str) :
  extract_rules uni deviations = Ok rules ->
  Forall (rule_identifier uni) rules.
Proof.
  unfold extract_rules. destruct (iterate deviations) as [items|]; [|discriminate].
  apply extract_loop_identifiers. constructor.
Qed.

(** The list built so far is only extended. *)
Lemma extract_loop_acc (items : list json) :
  forall acc,
    extract_loop uni items acc
    = match extract_loop uni items [] with
      | Ok rules => Ok (acc ++ rules)
      | Raise e => Raise e
      end.
Proof.
  induction items as [|item items IH]; intros acc; cbn [extract_loop].
  - now rewrite app_nil_r.
  - destruct (getitem item (lit "deviation")) as [v|]; [|reflexivity].
    destruct v as [| | |text| |]; try reflexivity.
    destruct (search (rule_start uni) text) as [g|]; [|apply IH].
    rewrite (IH (acc ++ _)), (IH ([] ++ _)).
    destruct (extract_loop uni items []); [|reflexivity].
    now rewrite <- app_assoc.
Qed.

Lemma extract_loop_app (items1 items2 : list json) :
  forall acc,
    extract_loop uni (items1 ++ items2) acc
    = match extract_loop uni items1 acc with
      | Ok rules => extract_loop uni items2 rules
      | Raise e => Raise e
      end.
Proof.
  induction items1 as [|item items1 IH]; intros acc;
    cbn [extract_loop app]; [reflexivity|].
  destruct (getitem item (lit "deviation")) as [v|]; [|reflexivity].
  destruct v as [| | |text| |]; try reflexivity.
  destruct (search (rule_start uni) text); apply IH.
Qed.

Lemma extract_loop_length (items : list json) :
  forall acc rules,
    extract_loop uni items acc = Ok rules ->
    length rules <= length acc + length items.
Proof.
  induction items as [|item items IH]; intros acc rules H;
    cbn [extract_loop] in H.
  - injection H as <-. cbn. lia.
  - destruct (getitem item (lit "deviation")) as [v|]; [|discriminate].
    destruct v as [| | |text| |]; try discriminate.
    destruct (search (rule_start uni) text).
    + apply IH in H. rewrite List.length_app in H. cbn [length] in *. lia.
    + apply IH in H. cbn [length]. lia.
Qed.

(** The rules of two lists of deviations put together are the rules of
    the first followed by those of the second, and a list gives at most
    one rule for each of its records. *)
Theorem extract_rules_concat (items1 items2 : list json)
    (rules1 rules2 : list str) :
  extract_rules uni (JArray items1) = Ok rules1 ->
  extract_rules uni (JArray items2) = Ok rules2 ->
  extract_rules uni (JArray (items1 ++ items2)) = Ok (rules1 ++ rules2) /\
  length rules1 <= length items1.
Proof.
  unfold extract_rules. cbn [iterate]. intros H1 H2. split.
  - now rewrite extract_loop_app, H1, extract_loop_acc, H2.
  - apply extract_loop_length in H1. cbn [length] in H1. lia.
Qed.

(** A record without the key [deviation] makes [extract_rules] raise
    [KeyError], which nothing catches: [fetch_misra_rules] and [main]
    raise it too, and no file is written. *)
Theorem extract_rules_missing_key (before after : list json) (record : json)
    (rules : list str) (fs : gmap str str) (filename : str) :
  extract_rules uni (JArray before) = Ok rules ->
  lacks_deviation record ->
  let deviations := JArray (before ++ record :: after) in
  let data := JObject {[ lit "deviations" := deviations ]} in
  extract_rules uni deviations = Raise KeyError /\
  fetch_misra_rules uni (Ok data) = Raise KeyError /\
  main uni (Ok data) fs filename = Raise KeyError.
Proof.
  intros Hbefore [members [-> Hkey]] deviations data.
  assert (Hex : extract_rules uni deviations = Raise KeyError).
  { subst deviations. unfold extract_rules in *. cbn [iterate] in *.
    rewrite extract_loop_app, Hbefore. cbn [extract_loop getitem].
    now rewrite Hkey. }
  assert (Hfetch : fetch_misra_rules uni (Ok data) = Raise KeyError).
  { unfold fetch_misra_rules. subst data. cbn [getitem].
    rewrite lookup_singleton_eq, Hex. reflexivity. }
  split; [exact Hex|]. split; [exact Hfetch|].
  unfold main. now rewrite Hfetch.
Qed.

(** A document that is no object, or has no key [deviations], makes
    [fetch_misra_rules] raise [TypeError] or [KeyError]. *)
Theorem fetch_misra_rules_bad_document (data : json) :
  (forall members,
     data = JObject members -> members !! lit "deviations" = None) ->
  fetch_misra_rules uni (Ok data)
  = Raise (match data with JObject _ => KeyError | _ => TypeError end).
Proof.
  intros H. unfold fetch_misra_rules.
  destruct data as [| | | | |members]; try reflexivity.
  cbn [getitem]. now rewrite (H members eq_refl).
Qed.

(** *** The lines of the suppression file *)

Lemma digit_not_newline (c : N) : re_digit uni c = true -> c <> 10%N.
Proof. intros H ->. vm_compute in H. discriminate. Qed.

Lemma rule_identifier_one_line (rule : str) :
  rule_identifier uni rule -> Forall (fun c => c <> 10%N) rule.
Proof.
  intros [major [minor [_ [_ [Hmajor [Hminor ->]]]]]].
  repeat (apply Forall_app; split).
  - literal.
  - eapply List.Forall_impl; [|exact Hmajor]. apply digit_not_newline.
  - literal.
  - eapply List.Forall_impl; [|exact Hminor]. apply digit_not_newline.
Qed.

Lemma split_lines (lines : list str) :
  Forall (Forall (fun c => c <> 10%N)) lines ->
  split 10 (flat_map (fun line => line ++ [10%N]) lines) = lines ++ [[]].
Proof.
  induction 1 as [|line lines Hline _ IH]; [reflexivity|].
  cbn [flat_map]. rewrite <- app_assoc. cbn [app].
  now rewrite split_newline_app, IH, (split_one_line line Hline).
Qed.

Lemma fetch_misra_rules_identifiers (response : download) (rules : list str) :
  fetch_misra_rules uni response = Ok rules ->
  Forall (rule_identifier uni) rules.
Proof.
  unfold fetch_misra_rules, try_except.
  destruct response as [data|e].
  - destruct (getitem data (lit "deviations")) as [deviations|e].
    + destruct (extract_rules uni deviations) as [r|e] eqn:Hex.
      * intros [= <-]. unfold extract_rules in Hex.
        destruct (iterate deviations) as [items|]; [|discriminate].
        apply extract_loop_identifiers in Hex; [exact Hex | constructor].
      * destruct (existsb _ _); [intros [= <-]; constructor | discriminate].
    + destruct (existsb _ _); [intros [= <-]; constructor | discriminate].
  - destruct (existsb _ _); [intros [= <-]; constructor | discriminate].
Qed.

(** Whenever [main] writes the file, the lines of the file are the four
    static rules followed by the rules that [fetch_misra_rules]
    returned, which are rule identifiers (and the empty rest after the
    last newline), and no other file is touched. *)
Theorem main_lines (response : download) (fs fs' : gmap str str)
    (filename : str) :
  main uni response fs filename = Ok fs' ->
  exists rules text,
    fetch_misra_rules uni response = Ok rules /\
    fs' !! filename = Some text /\
    split 10 text = static_rules ++ rules ++ [[]] /\
    Forall (rule_identifier uni) rules /\
    forall path, path <> filename -> fs' !! path = fs !! path.
Proof.
  unfold main. destruct (fetch_misra_rules uni response) as [rules|] eqn:Hf;
    [|discriminate].
  intros [= <-]. exists rules, (config_text rules).
  split; [reflexivity|]. apply fetch_misra_rules_identifiers in Hf.
  unfold write_config_file.
  rewrite lookup_insert_eq. split; [reflexivity|]. split; [|split; [exact Hf|]].
  - unfold config_text. rewrite split_lines; [now rewrite <- app_assoc|].
    apply Forall_app. split.
    + unfold static_rules. repeat constructor; literal.
    + eapply List.Forall_impl; [|exact Hf]. apply rule_identifier_one_line.
  - intros path Hne. now rewrite lookup_insert_ne.
Qed.

End ConvertMore.

(** ** The first column of the CSV file *)

Section RuleColumn.

Lemma replace_from_skip (old new pre s : str) :
  replace_from old new (length pre) (pre ++ s) = replace_from old new 0 s.
Proof. induction pre as [|c pre IH]; [reflexivity | exact IH]. Qed.

Lemma replace_from_clean (h : N) (t new s : str) :
  Forall (fun c => c <> h) s -> replace_from (h :: t) new 0 s = s.
Proof.
  induction 1 as [|c s Hc _ IH]; [reflexivity|].
  cbn [replace_from]. unfold startswith. cbn [strip_prefix].
  destruct (N.eqb_spec h c); [congruence|]. now rewrite IH.
Qed.

(** [replace] takes a leading [old] away when the rest has no character
    that [old] begins with. *)
Lemma replace_prefix (h : N) (t new s : str) :
  Forall (fun c => c <> h) s ->
  replace ((h :: t) ++ s) (h :: t) new = new ++ s.
Proof.
  intros Hs. unfold replace.
  change ((h :: t) ++ s) with (h :: (t ++ s)). cbn [replace_from].
  replace (length (h :: t) - 1) with (length t) by (cbn [length]; lia).
  rewrite replace_from_skip, (replace_from_clean h t new s Hs).
  change (h :: t ++ s) with ((h :: t) ++ s).
  unfold startswith. now rewrite strip_prefix_app.
Qed.

(** For a finding with the id [misra-c2012-] followed by a rule number
    (without the letter m), each row of the finding begins with the rule
    number alone. *)
Theorem csv_rule_column (error : node) (number : str) :
  get (snd error) (lit "id") = Some (lit "misra-c2012-" ++ number) ->
  Forall (fun c => c <> chr "m") number ->
  is_misra error = true /\
  Forall (fun row => row !! 0%nat = Some number) (error_rows error).
Proof.
  intros Hid Hnumber. unfold is_misra, error_rows, get_default.
  unfold get in Hid. rewrite Hid. cbn [default from_option id]. split.
  - change (lit "misra-c2012-") with (lit "misra-c2012" ++ lit "-").
    rewrite <- app_assoc. unfold startswith. now rewrite strip_prefix_app.
  - change (lit "misra-c2012-") with (chr "m" :: lit "isra-c2012-").
    rewrite (replace_prefix (chr "m") (lit "isra-c2012-") [] number Hnumber).
    apply List.Forall_forall. intros row Hrow.
    apply in_map_iff in Hrow. destruct Hrow as [location [<- _]]. reflexivity.
Qed.

End RuleColumn.

Lemma csv_rule_column_witness :
  get Samples.changed_twice (lit "id") = Some (lit "misra-c2012-" ++ lit "8.4") /\
  is_misra ([1; 0]%nat, Samples.changed_twice) = true /\
  Forall (fun row => row !! 0%nat = Some (lit "8.4"))
         (error_rows ([1; 0]%nat, Samples.changed_twice)).
Proof.
  split; [vm_compute; reflexivity|].
  apply (csv_rule_column ([1; 0]%nat, Samples.changed_twice) (lit "8.4"));
    [vm_compute; reflexivity | literal].
Defined.

(** ** What [get_changed_ranges] gives *)

(** For a range of the right format, [get_changed_ranges] returns
    well-formed ranges, or lets through an exception that is no
    [Exception]. *)
Theorem get_changed_ranges_outcome (uni : ucd) (run : subprocess)
    (file_path git_diff_range source_dir : str) :
  valid_git_diff_range git_diff_range = true ->
  match get_changed_ranges uni run file_path git_diff_range source_dir with
  | Ok ranges => Forall well_formed ranges
  | Raise e => issubclass e Exception = false
  end.
Proof.
  intros Hvalid.
  destruct (get_changed_ranges _ _ _ _ _) as [ranges|e] eqn:H.
  - unfold get_changed_ranges, try_except in H. rewrite Hvalid in H.
    cbn [negb] in H.
    destruct (run _) as [stdout|e].
    + destruct (parse_diff_ranges uni stdout) as [r|e] eqn:Hp.
      * injection H as <-. unfold parse_diff_ranges in Hp.
        apply parse_lines_well_formed in Hp; [exact Hp | constructor].
      * destruct (existsb _ _); [injection H as <-; constructor | discriminate].
    + destruct (existsb _ _); [injection H as <-; constructor | discriminate].
  - now apply (get_changed_ranges_raises uni run git_diff_range source_dir
                 file_path).
Qed.

Lemma get_changed_ranges_outcome_witness :
  valid_git_diff_range (lit "origin/main...HEAD") = true /\
  match get_changed_ranges Samples.ascii_only Samples.git (lit "a.c")
                           (lit "origin/main...HEAD") (lit ".") with
  | Ok ranges => Forall well_formed ranges
  | Raise e => issubclass e Exception = false
  end.
Proof.
  split; [reflexivity|].
  apply (get_changed_ranges_outcome Samples.ascii_only Samples.git (lit "a.c")
           (lit "origin/main...HEAD") (lit ".")).
  reflexivity.
Defined.

(** ** Instances *)

Lemma csv_written_uncapped_witness :
  csv_written [([1; 0]%nat, Samples.changed_twice)] (Some 0%Z)
  = csv_row header ++ rows_text (all_rows [([1; 0]%nat, Samples.changed_twice)]).
Proof.
  apply (csv_written_uncapped [([1; 0]%nat, Samples.changed_twice)] (Some 0%Z)).
  now right.
Defined.

Lemma csv_written_cap_sufficient_witness :
  (tell (csv_written [([1; 0]%nat, Samples.changed_twice)] None) <= 84)%Z /\
  csv_written [([1; 0]%nat, Samples.changed_twice)] (Some 84%Z)
  = csv_written [([1; 0]%nat, Samples.changed_twice)] None.
Proof.
  assert (H : (tell (csv_written [([1; 0]%nat, Samples.changed_twice)] None)
               <= 84)%Z) by (vm_compute; discriminate).
  split; [exact H|].
  exact (csv_written_cap_sufficient [([1; 0]%nat, Samples.changed_twice)] 84 H).
Defined.

Lemma csv_written_small_cap_witness :
  csv_written [([1; 0]%nat, Samples.changed_twice)] (Some 44%Z)
  = csv_row header.
Proof.
  apply (csv_written_small_cap [([1; 0]%nat, Samples.changed_twice)] 44); lia.
Defined.

Lemma extract_rules_identifiers_witness :
  extract_rules Samples.ascii_only
    (JArray [Samples.deviation "Rule 1.2"; Samples.deviation "no rule here"])
  = Ok [lit "misra-c2012-1.2"] /\
  Forall (rule_identifier Samples.ascii_only) [lit "misra-c2012-1.2"].
Proof.
  split; [vm_compute; reflexivity|].
  apply (extract_rules_identifiers Samples.ascii_only
           (JArray [Samples.deviation "Rule 1.2";
                    Samples.deviation "no rule here"])).
  vm_compute. reflexivity.
Defined.

Lemma extract_rules_concat_witness :
  extract_rules Samples.ascii_only
    (JArray ([Samples.deviation "Rule 1.2"] ++ [Samples.deviation "Directive 4.1"]))
  = Ok ([lit "misra-c2012-1.2"] ++ [lit "misra-c2012-4.1"]) /\
  length [lit "misra-c2012-1.2"] <= length [Samples.deviation "Rule 1.2"].
Proof.
  apply (extract_rules_concat Samples.ascii_only
           [Samples.deviation "Rule 1.2"] [Samples.deviation "Directive 4.1"]);
    vm_compute; reflexivity.
Defined.

Lemma extract_rules_missing_key_witness :
  let deviations :=
    JArray ([Samples.deviation "Rule 1.2"]
              ++ JObject {[ lit "reason" := JString (lit "none") ]} :: []) in
  let data := JObject {[ lit "deviations" := deviations ]} in
  extract_rules Samples.ascii_only deviations = Raise KeyError /\
  fetch_misra_rules Samples.ascii_only (Ok data) = Raise KeyError /\
  main Samples.ascii_only (Ok data) ∅ (lit "suppressions.txt") = Raise KeyError.
Proof.
  apply (extract_rules_missing_key Samples.ascii_only
           [Samples.deviation "Rule 1.2"] []
           (JObject {[ lit "reason" := JString (lit "none") ]})
           [lit "misra-c2012-1.2"] ∅ (lit "suppressions.txt")).
  - vm_compute. reflexivity.
  - eexists. split; [reflexivity|]. vm_compute. reflexivity.
Defined.

Lemma fetch_misra_rules_bad_document_witness :
  fetch_misra_rules Samples.ascii_only
    (Ok (JObject {[ lit "rules" := JArray [] ]}))
  = Raise KeyError.
Proof.
  apply (fetch_misra_rules_bad_document Samples.ascii_only
           (JObject {[ lit "rules" := JArray [] ]})).
  intros members [= <-]. vm_compute. reflexivity.
Defined.

Lemma main_lines_witness :
  let data :=
    JObject {[ lit "deviations" := JArray [Samples.deviation "Rule 1.2"] ]} in
  exists fs',
    main Samples.ascii_only (Ok data) ∅ (lit "suppressions.txt") = Ok fs' /\
    exists rules text,
      fetch_misra_rules Samples.ascii_only (Ok data) = Ok rules /\
      fs' !! lit "suppressions.txt" = Some text /\
      split 10 text = static_rules ++ rules ++ [[]] /\
      Forall (rule_identifier Samples.ascii_only) rules /\
      forall path, path <> lit "suppressions.txt" ->
                   fs' !! path = (∅ : gmap str str) !! path.
Proof.
  cbv zeta. eexists. split; [reflexivity|].
  apply (main_lines Samples.ascii_only
           (Ok (JObject {[ lit "deviations" :=
                             JArray [Samples.deviation "Rule 1.2"] ]}))
           ∅ _ (lit "suppressions.txt")).
  reflexivity.
Defined.

(** ** When the filter returns *)

Section FilterReturns.

Local Open Scope Z_scope.

Variable uni : ucd.
Variable run : subprocess.
Variables git_diff_range source_dir : str.

Hypothesis range_valid : valid_git_diff_range git_diff_range = true.
Hypothesis no_interrupt :
  forall cmd e, run cmd = Raise e -> issubclass e Exception = true.

Local Abbreviation scan_locations :=
  (scan_locations uni run git_diff_range source_dir).
Local Abbreviation scan_errors :=
  (scan_errors uni run git_diff_range source_dir).
Local Abbreviation cached_ranges :=
  (cached_ranges uni run git_diff_range source_dir).
Local Abbreviation kept := (kept uni run git_diff_range source_dir).

Lemma get_changed_ranges_returns (file_path : str) :
  exists ranges,
    get_changed_ranges uni run file_path git_diff_range source_dir = Ok ranges.
Proof.
  destruct (get_changed_ranges _ _ _ _ _) as [ranges|e] eqn:H; [eauto|].
  exfalso. unfold get_changed_ranges, try_except in H.
  rewrite range_valid in H. cbn [negb] in H.
  destruct (run _) as [stdout|e0] eqn:Hrun.
  - destruct (parse_diff_ranges uni stdout) as [r|e0] eqn:Hp; [discriminate|].
    assert (e0 = ValueError) as ->.
    { unfold parse_diff_ranges in Hp. revert Hp.
      generalize (@nil range). induction (split 10 stdout) as [|line lines IH];
        intros acc Hp; cbn [parse_lines] in Hp; [discriminate|].
      destruct (startswith line (lit "@@")); [|eauto].
      destruct (search (hunk_start uni) line) as [[g1 g2]|]; [|eauto].
      destruct (int uni g1); [|congruence].
      destruct (match g2 with Some g => int uni g | None => Some 1 end)
        as [count|]; [|congruence].
      destruct (0 <? count); eauto. }
    vm_compute in H. discriminate.
  - cbn [existsb] in H. rewrite orb_false_r, (no_interrupt _ _ Hrun) in H.
    discriminate.
Qed.

Lemma cached_ranges_returns (file_path : str) (cache : gmap str (list range)) :
  exists ranges cache', cached_ranges file_path cache = Ok (ranges, cache').
Proof.
  unfold FilterCppcheckResult.cached_ranges.
  destruct (cache !! file_path); [eauto|].
  destruct (get_changed_ranges_returns file_path) as [ranges ->]. eauto.
Qed.

Lemma scan_locations_returns error locations :
  Forall (fun location => exists n, line_of uni location = Ok n) locations ->
  forall acc cache,
    exists l cache', scan_locations error locations acc cache = Ok (l, cache').
Proof.
  induction 1 as [|location locations [n Hn] _ IH]; intros acc cache;
    cbn [FilterCppcheckResult.scan_locations]; [unfold ret; eauto|].
  unfold bind, lift. rewrite Hn.
  destruct (get location (lit "file")) as [file_path|]; [|apply IH].
  destruct (truthy file_path && (0 <? n)); [|apply IH].
  destruct (cached_ranges_returns file_path cache) as [ranges [cache' ->]].
  destruct (is_line_in_ranges n ranges); [unfold ret; eauto | apply IH].
Qed.

Lemma scan_errors_returns errors :
  Forall (fun error => is_misra error = true -> lines_readable uni error) errors ->
  forall acc cache,
    exists l cache', scan_errors errors acc cache = Ok (l, cache').
Proof.
  induction 1 as [|error errors Herror _ IH]; intros acc cache;
    cbn [FilterCppcheckResult.scan_errors]; [unfold ret; eauto|].
  fold (is_misra error). destruct (is_misra error); cbn [negb]; [|apply IH].
  unfold bind.
  destruct (scan_locations_returns error _ (Herror eq_refl) acc cache)
    as [l [cache' ->]].
  apply IH.
Qed.

(** With a diff range of the right format, a diff command that is not
    interrupted, and line attributes that [int] accepts, the filter
    returns, and returns the MISRA errors with a location that
    [is_line_in_ranges] finds in the ranges of its file. *)
Theorem filter_errors_returns (root : element) :
  Forall (fun error => is_misra error = true -> lines_readable uni error)
         (findall_descendants root (lit "error")) ->
  filter_errors_by_changed_lines uni run git_diff_range source_dir root
  = Ok (List.filter kept (findall_descendants root (lit "error"))).
Proof.
  intros Hlines.
  destruct (filter_errors_by_changed_lines uni run git_diff_range source_dir
              root) as [l|e] eqn:H.
  - now rewrite (filter_errors_filter _ _ _ _ _ _ H).
  - exfalso. unfold filter_errors_by_changed_lines in H.
    destruct (scan_errors_returns _ Hlines [] ∅) as [l [cache' Hs]].
    now rewrite Hs in H.
Qed.

End FilterReturns.

Lemma sample_report_errors :
  findall_descendants Samples.report (lit "error")
  = [([1; 0]%nat, Samples.changed_twice); ([1; 1]%nat, Samples.unchanged);
     ([1; 2]%nat, Samples.other_checker)].
Proof. vm_compute. reflexivity. Qed.

Lemma sample_report_readable :
  Forall (fun error =>
            is_misra error = true -> lines_readable Samples.ascii_only error)
         (findall_descendants Samples.report (lit "error")).
Proof.
  rewrite sample_report_errors.
  repeat (apply List.Forall_cons;
          [ intros _; unfold lines_readable; apply List.Forall_forall;
            intros location Hin; vm_compute in Hin;
            repeat (destruct Hin as [<-|Hin];
                    [eexists; vm_compute; reflexivity|]);
            destruct Hin
          | ]).
  apply List.Forall_nil.
Qed.

Lemma filter_errors_returns_witness :
  filter_errors_by_changed_lines Samples.ascii_only Samples.no_git
    (lit "origin/main...HEAD") (lit ".") Samples.report
  = Ok (List.filter (kept Samples.ascii_only Samples.no_git
                          (lit "origin/main...HEAD") (lit "."))
                    (findall_descendants Samples.report (lit "error"))).
Proof.
  apply (filter_errors_returns Samples.ascii_only Samples.no_git
           (lit "origin/main...HEAD") (lit ".")).
  - reflexivity.
  - intros cmd e [= <-]. reflexivity.
  - exact sample_report_readable.
Defined.

(** ** The [ValueError] of [get_changed_ranges] *)

(** [get_changed_ranges] raises [ValueError] exactly when the diff range
    is not of the three-dot form, whatever git would do. *)
Theorem get_changed_ranges_value_error (uni : ucd) (run : subprocess)
    (file_path git_diff_range source_dir : str) :
  get_changed_ranges uni run file_path git_diff_range source_dir
    = Raise ValueError
  <-> ~ three_dot_range git_diff_range.
Proof.
  rewrite <- valid_git_diff_range_iff. split.
  - intros H Hvalid.
    apply (get_changed_ranges_raises uni run git_diff_range source_dir
             file_path ValueError Hvalid) in H.
    discriminate.
  - intros H. apply get_changed_ranges_invalid.
    now destruct (valid_git_diff_range git_diff_range).
Qed.

(** ** What [fetch_misra_rules] can raise *)

Section FetchErrors.

Variable uni : ucd.

Lemma extract_loop_raise_kind (items : list json) :
  forall acc e,
    extract_loop uni items acc = Raise e -> e = KeyError \/ e = TypeError.
Proof.
  induction items as [|item items IH]; intros acc e H;
    cbn [extract_loop] in H; [discriminate|].
  destruct (getitem item (lit "deviation")) as [v|e0] eqn:Hg.
  - destruct v as [| | |text| |];
      try (injection H as <-; now right).
    destruct (search (rule_start uni) text); eauto.
  - injection H as <-. unfold getitem in Hg. destruct item; try (injection Hg as <-; now right).
    destruct (members !! lit "deviation"); [discriminate|].
    injection Hg as <-. now left.
Qed.

(** [fetch_misra_rules] raises what the download raised, unless that is
    a [URLError] or a [JSONDecodeError], or the [KeyError] or [TypeError]
    of a document that is not of the expected shape; what it raises is
    never one of the two classes it catches. *)
Theorem fetch_misra_rules_raise_kind (response : download) (e : exn) :
  fetch_misra_rules uni response = Raise e ->
  (response = Raise e \/ e = KeyError \/ e = TypeError) /\
  issubclass e URLError || issubclass e JSONDecodeError = false.
Proof.
  unfold fetch_misra_rules, try_except.
  set (body := match response with Ok _ => _ | Raise e0 => _ end).
  assert (Hbody : forall e0, body = Raise e0 ->
                    response = Raise e0 \/ e0 = KeyError \/ e0 = TypeError).
  { subst body. intros e0 H. destruct response as [data|e1].
    - right. destruct (getitem data (lit "deviations")) as [deviations|e1] eqn:Hg.
      + unfold extract_rules in H.
        destruct (iterate deviations) as [items|e1] eqn:Hi.
        * now apply extract_loop_raise_kind in H.
        * injection H as <-. unfold iterate in Hi.
          destruct deviations; try discriminate; injection Hi as <-; now right.
      + injection H as <-. unfold getitem in Hg.
        destruct data; try (injection Hg as <-; now right).
        destruct (members !! lit "deviations"); [discriminate|].
        injection Hg as <-. now left.
    - left. now injection H as <-. }
  destruct body as [rules|e0]; [discriminate|].
  cbn [existsb]. rewrite orb_false_r.
  destruct (issubclass e0 URLError || issubclass e0 JSONDecodeError) eqn:He0;
    [discriminate|].
  intros [= <-]. split; [now apply Hbody | exact He0].
Qed.

End FetchErrors.

Lemma fetch_misra_rules_raise_kind_witness :
  fetch_misra_rules Samples.ascii_only (Ok (JArray [])) = Raise TypeError /\
  (Ok (JArray []) = Raise TypeError \/ TypeError = KeyError
   \/ TypeError = TypeError) /\
  issubclass TypeError URLError || issubclass TypeError JSONDecodeError = false.
Proof.
  split; [reflexivity|].
  apply (fetch_misra_rules_raise_kind Samples.ascii_only (Ok (JArray []))).
  reflexivity.
Defined.

(** ** The filter on hunks that do not overlap *)

Section FilterInRanges.

Local Open Scope Z_scope.

Variable uni : ucd.
Variable run : subprocess.
Variables git_diff_range source_dir : str.

Local Abbreviation changed_ranges file_path :=
  (get_changed_ranges uni run file_path git_diff_range source_dir).

(** The hunks git reports for a file do not overlap. *)
Hypothesis hunks_apart :
  forall file_path ranges,
    changed_ranges file_path = Ok ranges -> non_overlapping ranges.

Lemma is_line_in_ranges_apart (line_num : Z) (ranges : list range) :
  non_overlapping ranges ->
  (is_line_in_ranges line_num ranges = true <-> in_some_range line_num ranges).
Proof.
  intros Hno. unfold is_line_in_ranges.
  destruct (length ranges <=? 5)%nat; [apply linear_scan_spec|].
  split; [apply binary_search_sound | now apply binary_search_complete].
Qed.

Lemma truthy_nonempty (s : str) : truthy s = true <-> s <> [].
Proof. destruct s; cbn; split; congruence. Qed.

Lemma on_changed_line_in_range (location : element) :
  on_changed_line uni run git_diff_range source_dir location = true
  <-> in_changed_range uni run git_diff_range source_dir location.
Proof.
  unfold on_changed_line, in_changed_range. split.
  - destruct (line_of uni location) as [line_num|]; [|discriminate].
    destruct (get location (lit "file")) as [file_path|]; [|discriminate].
    intros H. apply andb_true_iff in H. destruct H as [H Hin].
    apply andb_true_iff in H. destruct H as [Hfile Hline].
    destruct (changed_ranges file_path) as [ranges|] eqn:Hr; [|discriminate].
    exists line_num, file_path, ranges.
    split; [reflexivity|]. split; [reflexivity|].
    split; [now apply truthy_nonempty|]. split; [lia|]. split; [exact Hr|].
    now apply (is_line_in_ranges_apart _ _ (hunks_apart _ _ Hr)).
  - intros [line_num [file_path [ranges [-> [-> [Hfile [Hline [Hr Hin]]]]]]]].
    rewrite Hr. apply andb_true_iff. split.
    + apply andb_true_iff. split; [now apply truthy_nonempty | lia].
    + now apply (is_line_in_ranges_apart _ _ (hunks_apart _ _ Hr)).
Qed.

(** When the hunks of each file do not overlap, the errors returned are
    the MISRA errors of the report with a location whose line lies in a
    changed range of its file. *)
Theorem filter_errors_in_changed_ranges (root : element)
    (filtered_errors : list node) (error : node) :
  filter_errors_by_changed_lines uni run git_diff_range source_dir root
    = Ok filtered_errors ->
  (In error filtered_errors <->
   In error (findall_descendants root (lit "error")) /\
   is_misra error = true /\
   Exists (in_changed_range uni run git_diff_range source_dir)
          (findall (snd error) (lit "location"))).
Proof.
  intros H. rewrite (filter_errors_filter _ _ _ _ _ _ H).
  rewrite filter_In. unfold kept. rewrite andb_true_iff, existsb_exists.
  rewrite List.Exists_exists.
  split; intros [Hin [Hm [location [Hl Hc]]]];
    (split; [exact Hin|]; split; [exact Hm|]; exists location;
     split; [exact Hl|]; now apply on_changed_line_in_range).
Qed.

End FilterInRanges.

Lemma sample_hunks_apart (file_path : str) (ranges : list range) :
  get_changed_ranges Samples.ascii_only Samples.git file_path
    (lit "origin/main...HEAD") (lit ".") = Ok ranges ->
  non_overlapping ranges.
Proof.
  intros H. vm_compute in H. injection H as <-. split.
  - repeat constructor. unfold well_formed. cbn. lia.
  - intros r q [<-|[]] [<-|[]]. now left.
Qed.

Lemma filter_errors_in_changed_ranges_witness :
  exists filtered_errors,
    filter_errors_by_changed_lines Samples.ascii_only Samples.git
      (lit "origin/main...HEAD") (lit ".") Samples.report
    = Ok filtered_errors /\
    (In ([1; 0]%nat, Samples.changed_twice) filtered_errors <->
     In ([1; 0]%nat, Samples.changed_twice)
        (findall_descendants Samples.report (lit "error")) /\
     is_misra ([1; 0]%nat, Samples.changed_twice) = true /\
     Exists (in_changed_range Samples.ascii_only Samples.git
               (lit "origin/main...HEAD") (lit "."))
            (findall Samples.changed_twice (lit "location"))).
Proof.
  eexists. split; [vm_compute; reflexivity|].
  apply (filter_errors_in_changed_ranges Samples.ascii_only Samples.git
           (lit "origin/main...HEAD") (lit ".") sample_hunks_apart
           Samples.report _ ([1; 0]%nat, Samples.changed_twice)).
  vm_compute. reflexivity.
Defined.
